(** * AiBuildCoach: the content-acquisition and AI-response layer

    A shallow embedding of [utils/ai_wrapper.py] and of [fetch_raw_html]
    in [modules/analyse_html.py], with the properties of the
    specification proved or refuted on it; then of
    [fetch_html_with_status] in [utils/browser_fetch.py] and of the
    callers [improve_task_with_ai], [generate_tasks] and
    [discover_competitors_ai], with the properties their code shows.

    Python strings are sequences of Unicode code points: a [str] is a
    [list N].  Python integers are [Z].  The model's remote endpoint, the
    HTTP client and the URL parser are libraries outside the repository;
    their behaviour is a parameter of the functions that call them. *)

From Stdlib Require Import ZArith NArith Ascii String List Lia Bool.
From Stdlib Require Import DecimalFacts DecimalPos DecimalN DecimalZ.
From stdpp Require Import base tactics option list gmap.

Local Open Scope N_scope.

(** ** Python strings *)

Module PyStr.

Abbreviation pystr := (list N).

(** The code points of an ASCII literal. *)
Definition py (s : string) : pystr :=
  map N_of_ascii (list_ascii_of_string s).

Definition dquote : N := 34.
Definition apostrophe : N := 39.

(** Literals that contain double quotes are written with apostrophes in
    their place: [pyq "{'a': 1}"] is the text [{"a": 1}]. *)
Definition pyq (s : string) : pystr :=
  map (fun c => if c =? apostrophe then dquote else c) (py s).

(** [Py_UNICODE_ISSPACE]: what [str.strip], [str.isspace] and the regular
    expression class [\s] take as white space. *)
Definition isspace (c : N) : bool :=
  ((0x09 <=? c) && (c <=? 0x0D)) || ((0x1C <=? c) && (c <=? 0x20))
  || (c =? 0x85) || (c =? 0xA0) || (c =? 0x1680)
  || ((0x2000 <=? c) && (c <=? 0x200A))
  || (c =? 0x2028) || (c =? 0x2029) || (c =? 0x202F) || (c =? 0x205F)
  || (c =? 0x3000).

Fixpoint lstrip (s : pystr) : pystr :=
  match s with
  | c :: s' => if isspace c then lstrip s' else s
  | [] => []
  end.

Definition rstrip (s : pystr) : pystr := rev (lstrip (rev s)).

Definition strip (s : pystr) : pystr := rstrip (lstrip s).

(** [s.startswith(p)] and [s.endswith(p)]. *)
Fixpoint startswith (p s : pystr) : bool :=
  match p, s with
  | [], _ => true
  | a :: p', b :: s' => (a =? b) && startswith p' s'
  | _ :: _, [] => false
  end.

Definition endswith (p s : pystr) : bool := startswith (rev p) (rev s).

(** [p in s]. *)
Fixpoint contains (p s : pystr) : bool :=
  startswith p s || match s with _ :: s' => contains p s' | [] => false end.

(** [s.count(c)] for a one-character [c]. *)
Definition count_char (c : N) (s : pystr) : Z :=
  Z.of_nat (length (filter (fun x => x = c) s)).

(** [s.find(c)] and [s.rfind(c)] for a one-character [c]; -1 when absent. *)
Fixpoint find_char (c : N) (s : pystr) : Z :=
  match s with
  | [] => -1
  | x :: s' => if x =? c then 0
               else let i := find_char c s' in
                    if (i <? 0)%Z then (-1)%Z else (i + 1)%Z
  end.

Definition rfind_char (c : N) (s : pystr) : Z :=
  let i := find_char c (rev s) in
  if (i <? 0)%Z then (-1)%Z else (Z.of_nat (length s) - 1 - i)%Z.

(** Slices [l[:stop]], [l[start:]] with Python's treatment of negative and
    out-of-range bounds. *)
Definition norm_index {A} (l : list A) (i : Z) : nat :=
  if (i <? 0)%Z then Z.to_nat (Z.of_nat (length l) + i) else Z.to_nat i.

Definition slice_to {A} (stop : Z) (l : list A) : list A :=
  take (norm_index l stop) l.

Definition slice_from {A} (start : Z) (l : list A) : list A :=
  drop (norm_index l start) l.

Definition slice {A} (start stop : Z) (l : list A) : list A :=
  drop (norm_index l start) (take (norm_index l stop) l).

(** [s.replace(old, "")] for a non-empty [old]: occurrences are removed
    from left to right and do not overlap.  [skip] counts the characters
    of the occurrence in progress that are still to be dropped. *)
Fixpoint remove_from (old : pystr) (skip : nat) (s : pystr) : pystr :=
  match s with
  | [] => []
  | c :: s' =>
      match skip with
      | S k => remove_from old k s'
      | O => if startswith old s then remove_from old (length old - 1) s'
             else c :: remove_from old 0 s'
      end
  end.

Definition remove_all (old s : pystr) : pystr := remove_from old 0 s.

(** [s.split("\n")] and ["\n".join(lines)]. *)
Definition newline : N := 10.

Fixpoint split_lines (s : pystr) : list pystr :=
  match s with
  | [] => [[]]
  | c :: s' =>
      match split_lines s' with
      | l :: ls => if c =? newline then [] :: l :: ls else (c :: l) :: ls
      | [] => [[c]]
      end
  end.

Fixpoint join_lines (ls : list pystr) : pystr :=
  match ls with
  | [] => []
  | [l] => l
  | l :: ls' => l ++ newline :: join_lines ls'
  end.

End PyStr.
Import PyStr.

(** ** JSON values, [json.dumps] and [json.loads] *)

Module Json.

(** The Python values the [json] module produces and consumes.  A float
    stands as the decimal text that denotes it ([repr] of the float, or
    the token read from the document); floating-point arithmetic is not
    evaluated.  A [dict] keeps its items in insertion order. *)
#[warnings="-register-all"]
Inductive pyval : Type :=
| PNone
| PBool (b : bool)
| PInt (z : Z)
| PFloat (lit : pystr)
| PStr (s : pystr)
| PList (items : list pyval)
| PDict (items : list (pystr * pyval)).


(** [d[k] = v]: the value of a present key is replaced where it stands, a
    new key goes last. *)
Fixpoint dict_set (k : pystr) (v : pyval) (d : list (pystr * pyval))
  : list (pystr * pyval) :=
  match d with
  | [] => [(k, v)]
  | (k', v') :: d' =>
      if bool_decide (k' = k) then (k, v) :: d' else (k', v') :: dict_set k v d'
  end.

Fixpoint dict_get (k : pystr) (d : list (pystr * pyval)) : option pyval :=
  match d with
  | [] => None
  | (k', v') :: d' => if bool_decide (k' = k) then Some v' else dict_get k d'
  end.

(** *** Decimal and hexadecimal digits *)

Fixpoint uint_chars (u : Decimal.uint) : pystr :=
  match u with
  | Decimal.Nil => []
  | Decimal.D0 u => 48 :: uint_chars u
  | Decimal.D1 u => 49 :: uint_chars u
  | Decimal.D2 u => 50 :: uint_chars u
  | Decimal.D3 u => 51 :: uint_chars u
  | Decimal.D4 u => 52 :: uint_chars u
  | Decimal.D5 u => 53 :: uint_chars u
  | Decimal.D6 u => 54 :: uint_chars u
  | Decimal.D7 u => 55 :: uint_chars u
  | Decimal.D8 u => 56 :: uint_chars u
  | Decimal.D9 u => 57 :: uint_chars u
  end.

Definition is_digit (c : N) : bool := (48 <=? c) && (c <=? 57).

Fixpoint chars_uint (s : pystr) : Decimal.uint :=
  match s with
  | [] => Decimal.Nil
  | c :: s' =>
      let u := chars_uint s' in
      if c =? 48 then Decimal.D0 u else if c =? 49 then Decimal.D1 u
      else if c =? 50 then Decimal.D2 u else if c =? 51 then Decimal.D3 u
      else if c =? 52 then Decimal.D4 u else if c =? 53 then Decimal.D5 u
      else if c =? 54 then Decimal.D6 u else if c =? 55 then Decimal.D7 u
      else if c =? 56 then Decimal.D8 u else Decimal.D9 u
  end.

(** [str(z)] for an [int]. *)
Definition int_str (z : Z) : pystr :=
  match Z.to_int z with
  | Decimal.Pos u => uint_chars u
  | Decimal.Neg u => 45 :: uint_chars u
  end.

Definition hexval (c : N) : option N :=
  if (48 <=? c) && (c <=? 57) then Some (c - 48)
  else if (97 <=? c) && (c <=? 102) then Some (c - 87)
  else if (65 <=? c) && (c <=? 70) then Some (c - 55)
  else None.

Definition hex4 (a b c d : N) : option N :=
  match hexval a, hexval b, hexval c, hexval d with
  | Some x, Some y, Some z, Some w => Some (((x * 16 + y) * 16 + z) * 16 + w)
  | _, _, _, _ => None
  end.

Definition hexdigit (n : N) : N := if n <? 10 then 48 + n else 87 + n.

(** ['\\u{0:04x}'.format(n)] for [n < 0x10000]. *)
Definition u_escape (n : N) : pystr :=
  [92; 117; hexdigit (n / 4096); hexdigit ((n / 256) mod 16);
   hexdigit ((n / 16) mod 16); hexdigit (n mod 16)].

(** *** [json.dumps], with its default arguments *)

(** The replacement of one character in [encode_basestring_ascii]: the
    short escapes of [ESCAPE_DCT], the character itself from space to
    tilde, [\uXXXX] otherwise, as a surrogate pair above the basic
    plane. *)
Definition escape_char (c : N) : pystr :=
  if c =? 92 then [92; 92]
  else if c =? 34 then [92; 34]
  else if c =? 8 then [92; 98]
  else if c =? 12 then [92; 102]
  else if c =? 10 then [92; 110]
  else if c =? 13 then [92; 114]
  else if c =? 9 then [92; 116]
  else if (32 <=? c) && (c <=? 126) then [c]
  else if c <? 0x10000 then u_escape c
  else
    let n := c - 0x10000 in
    u_escape (N.lor 0xD800 (N.land (N.shiftr n 10) 0x3FF))
    ++ u_escape (N.lor 0xDC00 (N.land n 0x3FF)).

Definition encode_basestring_ascii (s : pystr) : pystr :=
  dquote :: concat (map escape_char s) ++ [dquote].

Fixpoint json_dumps (v : pyval) : pystr :=
  match v with
  | PNone => py "null"
  | PBool true => py "true"
  | PBool false => py "false"
  | PInt z => int_str z
  | PFloat lit => lit
  | PStr s => encode_basestring_ascii s
  | PList l =>
      91 :: (fix items (l : list pyval) : pystr :=
               match l with
               | [] => []
               | [x] => json_dumps x
               | x :: l' => json_dumps x ++ py ", " ++ items l'
               end) l ++ [93]
  | PDict d =>
      123 :: (fix items (d : list (pystr * pyval)) : pystr :=
                match d with
                | [] => []
                | [(k, x)] => encode_basestring_ascii k ++ py ": " ++ json_dumps x
                | (k, x) :: d' =>
                    encode_basestring_ascii k ++ py ": " ++ json_dumps x
                    ++ py ", " ++ items d'
                end) d ++ [125]
  end.

(** *** [json.loads]: the scanner of the [json] module

    The scanner works on the rest of the document and gives back the
    value and what follows it.  A [JSONDecodeError] is [Malformed]; its
    message is not computed here. *)

Definition is_json_ws (c : N) : bool :=
  (c =? 32) || (c =? 9) || (c =? 10) || (c =? 13).

Fixpoint skip_ws (s : pystr) : pystr :=
  match s with
  | c :: s' => if is_json_ws c then skip_ws s' else s
  | [] => []
  end.

Definition is_high_surrogate (u : N) : bool := (0xD800 <=? u) && (u <=? 0xDBFF).
Definition is_low_surrogate (u : N) : bool := (0xDC00 <=? u) && (u <=? 0xDFFF).

Definition join_surrogates (hi lo : N) : N :=
  0x10000 + N.lor (N.shiftl (hi - 0xD800) 10) (lo - 0xDC00).

(** [scanstring] in strict mode, from the character after the opening
    quote: the decoded string and the text after the closing quote. *)
Fixpoint scanstring (s : pystr) : option (pystr * pystr) :=
  match s with
  | [] => None
  | c :: s1 =>
      if c =? dquote then Some ([], s1)
      else if c =? 92 then
        match s1 with
        | [] => None
        | e :: s2 =>
            if e =? 117 then
              match s2 with
              | h1 :: h2 :: h3 :: h4 :: s3 =>
                  match hex4 h1 h2 h3 h4 with
                  | None => None
                  | Some u =>
                      let single :=
                        match scanstring s3 with
                        | Some (str, rest) => Some (u :: str, rest)
                        | None => None
                        end in
                      if is_high_surrogate u then
                        match s3 with
                        | b :: e' :: g1 :: g2 :: g3 :: g4 :: s4 =>
                            if (b =? 92) && (e' =? 117) then
                              match hex4 g1 g2 g3 g4 with
                              | None => None
                              | Some u2 =>
                                  if is_low_surrogate u2 then
                                    match scanstring s4 with
                                    | Some (str, rest) =>
                                        Some (join_surrogates u u2 :: str, rest)
                                    | None => None
                                    end
                                  else single
                              end
                            else single
                        | _ => single
                        end
                      else single
                  end
              | _ => None
              end
            else
              let plain (x : N) :=
                match scanstring s2 with
                | Some (str, rest) => Some (x :: str, rest)
                | None => None
                end in
              if (e =? 34) || (e =? 92) || (e =? 47) then plain e
              else if e =? 98 then plain 8
              else if e =? 102 then plain 12
              else if e =? 110 then plain 10
              else if e =? 114 then plain 13
              else if e =? 116 then plain 9
              else None
        end
      else if c <? 32 then None
      else
        match scanstring s1 with
        | Some (str, rest) => Some (c :: str, rest)
        | None => None
        end
  end.

Fixpoint span_digits (s : pystr) : pystr * pystr :=
  match s with
  | c :: s' =>
      if is_digit c then let '(ds, rest) := span_digits s' in (c :: ds, rest)
      else ([], s)
  | [] => ([], [])
  end.

(** The optional fraction (a dot and digits) and exponent ([e] or [E], an
    optional sign and digits) of [NUMBER_RE]: the text matched (empty when
    the part is absent) and what follows. *)
Definition match_frac (s : pystr) : pystr * pystr :=
  match s with
  | dot :: d :: s' =>
      if (dot =? 46) && is_digit d then
        let '(ds, rest) := span_digits s' in (dot :: d :: ds, rest)
      else ([], s)
  | _ => ([], s)
  end.

Definition match_exp (s : pystr) : pystr * pystr :=
  match s with
  | e :: s1 =>
      if (e =? 101) || (e =? 69) then
        match s1 with
        | x :: s2 =>
            if is_digit x then
              let '(ds, rest) := span_digits s2 in (e :: x :: ds, rest)
            else if (x =? 43) || (x =? 45) then
              match s2 with
              | d :: s3 =>
                  if is_digit d then
                    let '(ds, rest) := span_digits s3 in
                    (e :: x :: d :: ds, rest)
                  else ([], s)
              | [] => ([], s)
              end
            else ([], s)
        | [] => ([], s)
        end
      else ([], s)
  | [] => ([], s)
  end.

(** What [NUMBER_RE] finds after the sign: a zero or a digit from 1 to 9
    followed by digits, then the fraction and the exponent; with them,
    what follows the number. *)
Definition match_digits (s : pystr) : option (pystr * pystr * pystr * pystr) :=
  match s with
  | d :: s2 =>
      if is_digit d then
        let '(int_part, s3) :=
          if d =? 48 then ([d], s2)
          else let '(ds, rest) := span_digits s2 in (d :: ds, rest) in
        let '(frac, s4) := match_frac s3 in
        let '(exp, s5) := match_exp s4 in
        Some (int_part, frac, exp, s5)
      else None
  | [] => None
  end.

(** An [int] when the fraction and the exponent are absent, a [float]
    otherwise. *)
Definition number_value (sign int_part frac exp : pystr) : pyval :=
  match frac, exp with
  | [], [] =>
      let n := Z.of_uint (chars_uint int_part) in
      PInt (match sign with [] => n | _ => - n end)%Z
  | _, _ => PFloat (sign ++ int_part ++ frac ++ exp)
  end.

(** [_match_number]: an optional minus sign and the parts above. *)
Definition match_number (s : pystr) : option (pyval * pystr) :=
  let '(sign, s1) :=
    match s with
    | c :: s' => if c =? 45 then ([c], s') else ([], s)
    | [] => ([], s)
    end in
  match match_digits s1 with
  | Some (int_part, frac, exp, rest) =>
      Some (number_value sign int_part frac exp, rest)
  | None => None
  end.

(** The outcome of a scan: a value and the rest of the document, a decode
    error, or a recursion budget that ran out. *)
Inductive scan : Type :=
| Scanned (v : pyval) (rest : pystr)
| Malformed
| Starved.

(** [scan_once], [_parse_object] and [_parse_array].  [parse_members]
    starts at the opening quote of a key, [parse_elements] at a value;
    both carry what the container holds so far. *)
Fixpoint scan_once (fuel : nat) (s : pystr) : scan :=
  match fuel with
  | O => Starved
  | S fuel' =>
      match s with
      | [] => Malformed
      | c :: s1 =>
          if c =? dquote then
            match scanstring s1 with
            | Some (str, rest) => Scanned (PStr str) rest
            | None => Malformed
            end
          else if c =? 123 then
            match skip_ws s1 with
            | c2 :: s2 =>
                if c2 =? 125 then Scanned (PDict []) s2
                else parse_members fuel' (skip_ws s1) []
            | [] => Malformed
            end
          else if c =? 91 then
            match skip_ws s1 with
            | c2 :: s2 =>
                if c2 =? 93 then Scanned (PList []) s2
                else parse_elements fuel' (skip_ws s1) []
            | [] => Malformed
            end
          else if startswith (py "null") s then Scanned PNone (drop 4 s)
          else if startswith (py "true") s then Scanned (PBool true) (drop 4 s)
          else if startswith (py "false") s then Scanned (PBool false) (drop 5 s)
          else if startswith (py "NaN") s then Scanned (PFloat (py "NaN")) (drop 3 s)
          else if startswith (py "Infinity") s
          then Scanned (PFloat (py "Infinity")) (drop 8 s)
          else if startswith (py "-Infinity") s
          then Scanned (PFloat (py "-Infinity")) (drop 9 s)
          else
            match match_number s with
            | Some (v, rest) => Scanned v rest
            | None => Malformed
            end
      end
  end
with parse_members (fuel : nat) (s : pystr) (acc : list (pystr * pyval)) : scan :=
  match fuel with
  | O => Starved
  | S fuel' =>
      match s with
      | q :: s1 =>
          if q =? dquote then
            match scanstring s1 with
            | Some (key, s2) =>
                match skip_ws s2 with
                | colon :: s3 =>
                    if colon =? 58 then
                      match scan_once fuel' (skip_ws s3) with
                      | Scanned v s4 =>
                          let acc' := dict_set key v acc in
                          match skip_ws s4 with
                          | d :: s5 =>
                              if d =? 125 then Scanned (PDict acc') s5
                              else if d =? 44 then
                                parse_members fuel' (skip_ws s5) acc'
                              else Malformed
                          | [] => Malformed
                          end
                      | Malformed => Malformed
                      | Starved => Starved
                      end
                    else Malformed
                | [] => Malformed
                end
            | None => Malformed
            end
          else Malformed
      | [] => Malformed
      end
  end
with parse_elements (fuel : nat) (s : pystr) (acc : list pyval) : scan :=
  match fuel with
  | O => Starved
  | S fuel' =>
      match scan_once fuel' s with
      | Scanned v s1 =>
          match skip_ws s1 with
          | d :: s2 =>
              if d =? 93 then Scanned (PList (acc ++ [v])) s2
              else if d =? 44 then parse_elements fuel' (skip_ws s2) (acc ++ [v])
              else Malformed
          | [] => Malformed
          end
      | Malformed => Malformed
      | Starved => Starved
      end
  end.

(** [json.loads(s)]: white space, one value, white space, the end.  A
    container takes two calls of the scanner and holds a character or
    more, so twice the length of the document is budget enough
    ([json_loads_fed] below).  The limits of the interpreter on the depth
    of a document and on the digits of an integer are not modelled. *)
Definition decode (fuel : nat) (s : pystr) : scan :=
  match scan_once fuel (skip_ws s) with
  | Scanned v rest =>
      match skip_ws rest with
      | [] => Scanned v []
      | _ :: _ => Malformed
      end
  | other => other
  end.

Definition json_loads (s : pystr) : option pyval :=
  match decode (2 * length s + 2) s with
  | Scanned v _ => Some v
  | _ => None
  end.

End Json.
Import Json.

(** ** [utils/ai_wrapper.py] *)

Module AiWrapper.

Definition DEFAULT_MODEL : pystr := py "gpt-4.1".
Definition CHEAP_MODEL : pystr := py "gpt-4o-mini".

(** One call of [client.chat.completions.create]. *)
Record request : Type := {
  rq_model : pystr;
  rq_prompt : pystr;
  rq_temperature : pystr;
  rq_max_tokens : Z
}.

(** What the call gives: a message with text, a message whose content is
    [None] (the [strip] that follows raises), or an exception. *)
Inductive completion : Type :=
| Content (text : pystr)
| NoContent
| Failure (msg : pystr).

(** The process state the module touches: the dictionary [_ai_cache] and
    the requests sent so far, oldest first. *)
Record world : Type := {
  ai_cache : gmap (list N) (list N);
  issued : list request
}.

Definition fresh : world := {| ai_cache := ∅; issued := [] |}.

(** A function that returns or raises. *)
Inductive outcome (A : Type) : Type :=
| Returns (a : A)
| Raises (msg : pystr).
Arguments Returns {A} a.
Arguments Raises {A} msg.

Definition fence : pystr := py "```".

(** Lines 63 to 71 of [smart_ai]: the text of the message, stripped and
    without a code fence around it. *)
Definition strip_fence (content : pystr) : pystr :=
  let output := strip content in
  if startswith fence output then
    let lines := split_lines output in
    let lines :=
      match lines with
      | l0 :: _ => if startswith fence l0 then slice_from 1 lines else lines
      | [] => lines
      end in
    let lines :=
      match last lines with
      | Some l => if bool_decide (strip l = fence) then slice_to (-1) lines
                  else lines
      | None => lines
      end in
    strip (join_lines lines)
  else output.

(** [cache_key or prompt.strip()[:200]] *)
Definition key_of (cache_key : option pystr) (prompt : pystr) : pystr :=
  match cache_key with
  | Some (c :: k) => c :: k
  | _ => slice_to 200 (strip prompt)
  end.

Definition AI_FAILED : pyval :=
  PDict [(py "error", PStr (py "AI failed after retries"))].

Section Remote.

(** The endpoint: what the request number [n] of the process (counted
    from 0) is answered with. *)
Variable remote : nat -> request -> completion.

(** The text of the [JSONDecodeError] that [json.loads] raises on a
    document it rejects. *)
Variable decode_message : pystr -> pystr.

(** The loop of [smart_ai] with [n] attempts left. *)
Fixpoint attempts (n : nat) (rq : request) (key : pystr) (w : world)
  : pystr * world :=
  match n with
  | O => (json_dumps AI_FAILED, w)
  | S n' =>
      let w1 := {| ai_cache := ai_cache w; issued := issued w ++ [rq] |} in
      match remote (length (issued w)) rq with
      | Content text =>
          let output := strip_fence text in
          (output, {| ai_cache := <[key := output]> (ai_cache w1);
                      issued := issued w1 |})
      | NoContent | Failure _ => attempts n' rq key w1
      end
  end.

Definition smart_ai (prompt : pystr) (model cache_key : option pystr)
    (max_retry : Z) (temperature : pystr) (max_tokens : Z) (w : world)
  : pystr * world :=
  let use_model := match model with Some (c :: m) => c :: m | _ => DEFAULT_MODEL end in
  let key := key_of cache_key prompt in
  match ai_cache w !! key with
  | Some cached => (cached, w)
  | None =>
      attempts (Z.to_nat max_retry)
        {| rq_model := use_model; rq_prompt := prompt;
           rq_temperature := temperature; rq_max_tokens := max_tokens |}
        key w
  end.

(** [re.search(r"\{.*\}", cleaned, re.DOTALL)]: from the first opening
    brace to the last closing brace, when the latter comes after. *)
Definition search_braces (s : pystr) : option pystr :=
  let i := find_char 123 s in
  let j := rfind_char 125 s in
  if (0 <=? i)%Z && (i <? j)%Z then Some (slice i (j + 1) s) else None.

Definition fix_truncated_json (json_str : pystr) : pystr :=
  let json_str := rstrip json_str in
  let json_str :=
    if endswith [44] json_str then slice_to (-1) json_str else json_str in
  let json_str :=
    if endswith [dquote] json_str then json_str
    else if contains [dquote] json_str then
      let last_quote := rfind_char dquote json_str in
      let second_last_quote := rfind_char dquote (slice 0 last_quote json_str) in
      if negb (second_last_quote =? -1)%Z then
        if contains [58] (slice_from last_quote json_str)
        then slice_to (last_quote + 1) json_str ++ [dquote; dquote]
        else json_str
      else json_str
    else json_str in
  let open_braces := (count_char 123 json_str - count_char 125 json_str)%Z in
  let open_brackets := (count_char 91 json_str - count_char 93 json_str)%Z in
  let json_str :=
    if endswith [44] (rstrip json_str) then slice_to (-1) (rstrip json_str)
    else json_str in
  let json_str := json_str ++ replicate (Z.to_nat open_brackets) 93 in
  json_str ++ replicate (Z.to_nat open_braces) 125.

Definition clean_ai_json (ai_response : pystr) : outcome pyval :=
  let cleaned :=
    strip (remove_all fence (remove_all (py "```json") ai_response)) in
  let cleaned :=
    match search_braces cleaned with
    | Some m => m
    | None => cleaned
    end in
  match json_loads cleaned with
  | Some v => Returns v
  | None =>
      let fixed := fix_truncated_json cleaned in
      match json_loads fixed with
      | Some v => Returns v
      | None => Raises (decode_message fixed)
      end
  end.

(** Lines 175 to 193 of [safe_json_ai]: from the text [smart_ai] gave to
    the dictionary returned. *)
Definition parse_guaranteed (raw_output : pystr) : pyval :=
  if bool_decide (raw_output = []) || bool_decide (strip raw_output = [])
  then PDict [(py "error", PStr (py "AI returned empty response"));
              (py "raw", PStr [])]
  else
    match clean_ai_json raw_output with
    | Returns parsed =>
        match parsed with
        | PDict _ => parsed
        | PList _ => PDict [(py "data", parsed); (py "raw", PStr raw_output)]
        | _ => PDict [(py "data", parsed); (py "raw", PStr raw_output)]
        end
    | Raises je =>
        PDict [(py "error", PStr (py "Invalid JSON from AI: " ++ slice_to 100 je));
               (py "raw", PStr (slice_to 2000 raw_output))]
    end.

(** [safe_json_ai].  [smart_ai] catches what its request raises and
    nothing else in the body raises, so the outer handler is never
    entered. *)
Definition safe_json_ai (prompt : pystr) (model cache_key : option pystr)
    (max_tokens : Z) (temperature : pystr) (default_response : option pyval)
    (w : world) : pyval * world :=
  let default_response :=
    match default_response with
    | None => PDict [(py "error", PStr (py "AI unavailable")); (py "raw", PStr [])]
    | Some d => d
    end in
  let '(raw_output, w') :=
    smart_ai prompt model cache_key 3 temperature max_tokens w in
  (parse_guaranteed raw_output, w').

(** [clear_cache] *)
Definition clear_cache (w : world) : world :=
  {| ai_cache := ∅; issued := issued w |}.

End Remote.

(** *** [extract_limited_html] and the regular expressions it applies *)

(** [re.sub(pattern, repl, s)] for a pattern that matches no empty text:
    [match_at] gives the length of the match that starts at the head of
    its argument, if there is one; the scan resumes after each match. *)
Fixpoint re_sub (match_at : pystr -> option nat) (repl : pystr)
    (skip : nat) (s : pystr) : pystr :=
  match s with
  | [] => []
  | c :: s' =>
      match skip with
      | S k => re_sub match_at repl k s'
      | O =>
          match match_at s with
          | Some (S n) => repl ++ re_sub match_at repl n s'
          | _ => c :: re_sub match_at repl 0 s'
          end
      end
  end.

(** A lower-case ASCII character of a pattern against a character of the
    text, under [re.IGNORECASE]: the two cases of a letter, and the
    code points the [re] module folds onto [s], [i] and [k]. *)
Definition ci_eq (p c : N) : bool :=
  (c =? p)
  || ((97 <=? p) && (p <=? 122) && (c =? p - 32))
  || ((p =? 115) && (c =? 0x17F))
  || ((p =? 105) && ((c =? 0x130) || (c =? 0x131)))
  || ((p =? 107) && (c =? 0x212A)).

Fixpoint startswith_ci (p s : pystr) : bool :=
  match p, s with
  | [], _ => true
  | a :: p', b :: s' => ci_eq a b && startswith_ci p' s'
  | _ :: _, [] => false
  end.

(** The offset of the first occurrence of [p] in [s]. *)
Fixpoint find_ci (p s : pystr) : option nat :=
  if startswith_ci p s then Some O
  else match s with
       | _ :: s' => S <$> find_ci p s'
       | [] => None
       end.

Fixpoint find_str (p s : pystr) : option nat :=
  if startswith p s then Some O
  else match s with
       | _ :: s' => S <$> find_str p s'
       | [] => None
       end.

(** [<name.*?>.*?</name>] with [DOTALL] and [IGNORECASE]: the opening
    word, the first [>] after it, the first closing tag after that. *)
Definition match_block (name : pystr) (s : pystr) : option nat :=
  let opening := 60 :: name in
  let closing := 60 :: 47 :: name ++ [62] in
  if startswith_ci opening s then
    let s1 := drop (length opening) s in
    match find_str [62] s1 with
    | Some i =>
        match find_ci closing (drop (S i) s1) with
        | Some j => Some (length opening + S i + j + length closing)%nat
        | None => None
        end
    | None => None
    end
  else None.

(** [<!--.*?-->] with [DOTALL]. *)
Definition match_comment (s : pystr) : option nat :=
  if startswith (py "<!--") s then
    match find_str (py "-->") (drop 4 s) with
    | Some j => Some (4 + j + 3)%nat
    | None => None
    end
  else None.

Fixpoint span_length (f : N -> bool) (s : pystr) : nat :=
  match s with
  | c :: s' => if f c then S (span_length f s') else O
  | [] => O
  end.

(** [\s+] *)
Definition match_spaces (s : pystr) : option nat :=
  match span_length isspace s with
  | O => None
  | n => Some n
  end.

(** The class [[a-z-]] under [IGNORECASE]. *)
Definition is_attr_char (c : N) : bool :=
  (c =? 45) || ((97 <=? c) && (c <=? 122)) || ((65 <=? c) && (c <=? 90))
  || (c =? 0x130) || (c =? 0x131) || (c =? 0x17F) || (c =? 0x212A).

(** The pattern of line 245, with [IGNORECASE]: the word [data-], one or
    more characters of the class above, an equals sign, and a quoted
    text without a quote inside. *)
Definition match_data_attr (s : pystr) : option nat :=
  if startswith_ci (py "data-") s then
    let s1 := drop 5 s in
    let n := span_length is_attr_char s1 in
    let s2 := drop n s1 in
    if (0 <? n)%nat && startswith [61; dquote] s2 then
      let s3 := drop 2 s2 in
      let m := span_length (fun c => negb (c =? dquote)) s3 in
      if startswith [dquote] (drop m s3) then Some (5 + n + 2 + m + 1)%nat
      else None
    else None
  else None.

(** The pattern of line 246: an opening brace, 500 or more characters
    other than a closing brace, a closing brace. *)
Definition match_blob (s : pystr) : option nat :=
  match s with
  | c :: s1 =>
      if c =? 123 then
        let m := span_length (fun c => negb (c =? 125)) s1 in
        if (500 <=? m)%nat && startswith [125] (drop m s1)
        then Some (1 + m + 1)%nat
        else None
      else None
  | [] => None
  end.

Definition extract_limited_html (html : pystr) (limit : Z) : pystr :=
  match html with
  | [] => []
  | _ :: _ =>
      let clean := re_sub (match_block (py "script")) [] 0 html in
      let clean := re_sub (match_block (py "style")) [] 0 clean in
      let clean := re_sub match_comment [] 0 clean in
      let clean := re_sub (match_block (py "noscript")) [] 0 clean in
      let clean := re_sub match_spaces [32] 0 clean in
      let clean := re_sub match_data_attr [] 0 clean in
      let clean := re_sub match_blob [123; 125] 0 clean in
      slice_to limit clean
  end.

End AiWrapper.
Import AiWrapper.

(** ** [fetch_raw_html] in [modules/analyse_html.py] *)

Module AnalyseHtml.

(** One [client.get]: the address, whether certificates are verified, and
    the timeout in seconds. *)
Record get_request : Type := {
  gr_url : pystr;
  gr_verify : bool;
  gr_timeout : Z
}.

(** What the call gives: a response, or an exception of [httpx] with
    its text.  A refused connection and a certificate that does not
    verify raise [ConnectError]; [httpx] has no exception of the name
    [SSLError]. *)
Inductive get_outcome : Type :=
| Response (status : Z) (reason text : pystr)
| ConnectError (msg : pystr)
| TimeoutException (msg : pystr)
| OtherError (msg : pystr).

(** The libraries [fetch_raw_html] calls: [urlparse(url).scheme], which
    may raise [ValueError], and the network, which answers the call number
    [n] of the fetch (counted from 0). *)
Record env : Type := {
  urlparse_scheme : pystr -> outcome pystr;
  http_get : nat -> get_request -> get_outcome
}.

Record FetchResult : Type := {
  success : bool;
  status_code : option Z;
  html : pystr;
  error : pystr
}.

Definition set_status (r : FetchResult) (st : Z) : FetchResult :=
  {| success := success r; status_code := Some st; html := html r;
     error := error r |}.

Definition set_error (r : FetchResult) (e : pystr) : FetchResult :=
  {| success := success r; status_code := status_code r; html := html r;
     error := e |}.

Definition set_success (r : FetchResult) (text : pystr) : FetchResult :=
  {| success := true; status_code := status_code r; html := text;
     error := error r |}.

(** [str.lower] on the characters whose lower case holds an ASCII
    character; the lower case of any other character is outside ASCII and
    takes no part in the comparisons of [is_replit_url]. *)
Definition lower_char (c : N) : pystr :=
  if (65 <=? c) && (c <=? 90) then [c + 32]
  else if c =? 0x212A then [107]
  else if c =? 0x130 then [105; 0x307]
  else [c].

Definition lower (s : pystr) : pystr := concat (map lower_char s).

Definition is_replit_url (url : pystr) : bool :=
  let url_lower := lower url in
  existsb (fun x => contains x url_lower)
    [py ".replit."; py "spock."; py ".repl.co"; py "replit.dev"].

(** The text of the [AttributeError] the interpreter raises when a
    handler that names [httpx.SSLError] is matched against an exception:
    [httpx] defines no such name. *)
Definition missing_attribute : pystr :=
  py "module 'httpx' has no attribute 'SSLError'".

(** [last_error or "Failed after 3 attempts"] *)
Definition last_error_or (last_error : option pystr) : pystr :=
  match last_error with
  | Some (c :: e) => c :: e
  | _ => py "Failed after 3 attempts"
  end.

Section Fetch.

Variable E : env.

(** The loop of lines 88 to 141 with [n] rounds left; [log] holds the
    requests sent so far, oldest first.  An exception of the request
    goes to the handlers of line 112 on; the first of them names
    [httpx.SSLError], so matching it raises [AttributeError], which
    leaves the loop for the handler of line 147.  The request without
    verification of line 120 and the handlers of a timeout and of other
    errors (lines 133 to 141) are never entered. *)
Fixpoint rounds (n : nat) (url : pystr) (timeout : Z) (result : FetchResult)
    (last_error : option pystr) (log : list get_request)
  : FetchResult * list get_request :=
  match n with
  | O => (set_error result (last_error_or last_error), log)
  | S n' =>
      let rq := {| gr_url := url; gr_verify := true; gr_timeout := timeout |} in
      match http_get E (length log) rq with
      | Response status reason text =>
          let result := set_status result status in
          if (status =? 200)%Z then
            if (length text <? 50)%nat then
              rounds n' url timeout result
                (Some (py "Empty or slow response from server")) (log ++ [rq])
            else (set_success result text, log ++ [rq])
          else
            (set_error result
               (py "HTTP " ++ int_str status ++ py ": " ++ reason),
             log ++ [rq])
      | ConnectError _ | TimeoutException _ | OtherError _ =>
          (set_error result
             (py "Unexpected error: " ++ py "AttributeError" ++ py ": "
              ++ missing_attribute),
           log ++ [rq])
      end
  end.

Definition empty_result : FetchResult :=
  {| success := false; status_code := None; html := []; error := [] |}.

(** Lines 68 to 81: the address the requests go to, or the result that
    turns the address down. *)
Definition checked_url (url : pystr) : FetchResult + pystr :=
  let result := empty_result in
  match urlparse_scheme E url with
  | Raises msg => inl (set_error result (py "Invalid URL: " ++ msg))
  | Returns scheme =>
      if bool_decide (strip url = []) then
        inl (set_error result (py "URL cannot be empty"))
      else
        let go (url scheme : pystr) : FetchResult + pystr :=
          if bool_decide (scheme = py "http") || bool_decide (scheme = py "https")
          then inr url
          else inl (set_error result
                      (py "Invalid scheme: " ++ scheme
                       ++ py ". Only http and https are supported.")) in
        match scheme with
        | [] =>
            let url := py "https://" ++ url in
            match urlparse_scheme E url with
            | Raises msg => inl (set_error result (py "Invalid URL: " ++ msg))
            | Returns scheme => go url scheme
            end
        | _ :: _ => go url scheme
        end
  end.

Definition fetch_raw_html (url : pystr) : FetchResult * list get_request :=
  match checked_url url with
  | inl result => (result, [])
  | inr url =>
      let timeout := if is_replit_url url then 45%Z else 20%Z in
      rounds 3 url timeout empty_result None []
  end.

End Fetch.

(** The scheme [urlsplit] finds: leading C0 controls and spaces go, tabs
    and line breaks go, and the text before the first colon is a scheme
    when it starts with an ASCII letter and holds letters, digits, [+],
    [-] and [.] only.  The checks of the host part, which can raise, are
    left out. *)
Definition is_ascii_alpha (c : N) : bool :=
  ((97 <=? c) && (c <=? 122)) || ((65 <=? c) && (c <=? 90)).

Definition is_scheme_char (c : N) : bool :=
  is_ascii_alpha c || is_digit c || (c =? 43) || (c =? 45) || (c =? 46).

Fixpoint lstrip_c0 (s : pystr) : pystr :=
  match s with
  | c :: s' => if c <=? 32 then lstrip_c0 s' else s
  | [] => []
  end.

Definition urlsplit_scheme (url : pystr) : pystr :=
  let url := lstrip_c0 url in
  let url := filter (fun c => c ≠ 9 ∧ c ≠ 10 ∧ c ≠ 13) url in
  let i := find_char 58 url in
  match url with
  | c :: _ =>
      if (0 <? i)%Z && is_ascii_alpha c && forallb is_scheme_char (slice_to i url)
      then lower (slice_to i url)
      else []
  | [] => []
  end.

End AnalyseHtml.
Import AnalyseHtml.

(** ** Notions the properties are stated with *)

Module Notions.

(** The answers to [n] requests [rq] sent from request number [start]
    on: the position and the text of the first answer with content. *)
Fixpoint first_content (remote : nat -> request -> completion)
    (start n : nat) (rq : request) : option (nat * pystr) :=
  match n with
  | O => None
  | S n' =>
      match remote start rq with
      | Content text => Some (O, text)
      | NoContent | Failure _ =>
          match first_content remote (S start) n' rq with
          | Some (i, text) => Some (S i, text)
          | None => None
          end
      end
  end.

(** The request [smart_ai] sends for its arguments. *)
Definition request_of (prompt : pystr) (model : option pystr)
    (temperature : pystr) (max_tokens : Z) : request :=
  {| rq_model := match model with Some (c :: m) => c :: m | _ => DEFAULT_MODEL end;
     rq_prompt := prompt;
     rq_temperature := temperature;
     rq_max_tokens := max_tokens |}.

(** The states a process goes through: it starts with an empty cache and
    calls [smart_ai] (alone or inside [safe_json_ai]) and [clear_cache]. *)
Inductive reachable (remote : nat -> request -> completion) : world -> Prop :=
| reach_fresh : reachable remote fresh
| reach_smart_ai w prompt model cache_key max_retry temperature max_tokens :
    reachable remote w ->
    reachable remote
      (smart_ai remote prompt model cache_key max_retry temperature max_tokens w).2
| reach_clear w :
    reachable remote w -> reachable remote (clear_cache w).


(** Code points that do not split a surrogate pair: no high surrogate is
    followed at once by a low one. *)
Fixpoint no_split_pair (s : pystr) : bool :=
  match s with
  | c :: s' =>
      negb (is_high_surrogate c
            && match s' with c' :: _ => is_low_surrogate c' | [] => false end)
      && no_split_pair s'
  | [] => true
  end.

(** The text of a [str]: code points of Unicode, no split pair. *)
Definition text_ok (s : pystr) : bool :=
  forallb (fun c => c <? 0x110000) s && no_split_pair s.

(** The text of a finite [float]: what [NUMBER_RE] takes whole, with a
    fraction or an exponent. *)
Definition float_ok (lit : pystr) : bool :=
  match match_number lit with
  | Some (PFloat lit', []) => bool_decide (lit' = lit)
  | _ => false
  end.

Fixpoint keys_unique (ks : list pystr) : bool :=
  match ks with
  | k :: ks' => negb (existsb (fun k' => bool_decide (k' = k)) ks') && keys_unique ks'
  | [] => true
  end.

(** A value of Python as the [json] module serializes it in strict JSON:
    texts and floats as above, the keys of a [dict] distinct. *)
Fixpoint value_ok (v : pyval) : bool :=
  match v with
  | PNone | PBool _ | PInt _ => true
  | PFloat lit => float_ok lit
  | PStr s => text_ok s
  | PList l => forallb value_ok l
  | PDict d =>
      keys_unique (map fst d)
      && (fix items (d : list (pystr * pyval)) : bool :=
            match d with
            | (k, x) :: d' => text_ok k && value_ok x && items d'
            | [] => true
            end) d
  end.

(** The opening of a script block and its closing tag. *)
Definition script_open : pystr := py "<script".
Definition script_close : pystr := py "</script>".

(** [t] is the word [p] of a pattern, in any case of its letters. *)
Definition spells (p t : pystr) : bool :=
  startswith_ci p t && bool_decide (length t = length p).

(** A script block: the opening word, the attributes up to the first
    closing bracket, the text, the closing tag. *)
Definition script_block (opening attrs body closing : pystr) : pystr :=
  opening ++ attrs ++ [62] ++ body ++ closing.

(** The text between the brackets of a list and between the braces of a
    dictionary in [json_dumps]. *)
Fixpoint items_text (l : list pyval) : pystr :=
  match l with
  | [] => []
  | [x] => json_dumps x
  | x :: l' => json_dumps x ++ py ", " ++ items_text l'
  end.

Fixpoint members_text (d : list (pystr * pyval)) : pystr :=
  match d with
  | [] => []
  | [(k, x)] => encode_basestring_ascii k ++ py ": " ++ json_dumps x
  | (k, x) :: d' =>
      encode_basestring_ascii k ++ py ": " ++ json_dumps x ++ py ", "
      ++ members_text d'
  end.

(** What may follow a value in a document: nothing, a comma, a closing
    bracket or a closing brace. *)
Definition delimited (rest : pystr) : bool :=
  match rest with
  | [] => true
  | c :: _ => (c =? 44) || (c =? 93) || (c =? 125)
  end.

(** The calls of the scanner a value takes. *)
Fixpoint weight (v : pyval) : nat :=
  match v with
  | PList l => S (list_sum (map (fun x => S (weight x)) l))
  | PDict d => S (list_sum (map (fun kx => S (weight kx.2)) d))
  | _ => 1
  end.

(** What ends a run of digits. *)
Definition stops (rest : pystr) : bool :=
  match rest with
  | [] => true
  | c :: _ => negb (is_digit c)
  end.

(** The text between the quotes in [encode_basestring_ascii]. *)
Definition enc (s : pystr) : pystr := concat (map escape_char s).

(** One more character in front of what the scanner reads. *)
Definition on_scanned (c : N) (o : option (pystr * pystr)) : option (pystr * pystr) :=
  match o with
  | Some (str, rest) => Some (c :: str, rest)
  | None => None
  end.

(** The text goes on with the escape of a low surrogate, or with one the
    scanner turns down. *)
Definition low_ahead (T : pystr) : bool :=
  match T with
  | b :: e' :: g1 :: g2 :: g3 :: g4 :: _ =>
      (b =? 92) && (e' =? 117)
      && match hex4 g1 g2 g3 g4 with
         | Some u2 => is_low_surrogate u2
         | None => true
         end
  | _ => false
  end.

(** The items of a dictionary, as [value_ok] checks them. *)
Fixpoint members_ok (d : list (pystr * pyval)) : bool :=
  match d with
  | (k, x) :: d' => text_ok k && value_ok x && members_ok d'
  | [] => true
  end.

(** A character that is neither white space nor a closing bracket or
    brace. *)
Definition opens (c : N) : Prop :=
  is_json_ws c = false /\ c <> 93 /\ c <> 125.

(** The first substitution of [extract_limited_html]. *)
Definition script_pass : pystr -> pystr :=
  re_sub (match_block (py "script")) [] 0.

(** The result holds a page of 50 characters or more that the network
    gave with status 200 to a request of the log. *)
Definition answered_ok (E : env) (r : FetchResult) (log : list get_request) : Prop :=
  html r <> [] /\ (50 <= length (html r))%nat /\ status_code r = Some 200%Z
  /\ exists k rq reason,
       log !! k = Some rq /\ http_get E k rq = Response 200 reason (html r).

End Notions.
Import Notions.

(** ** The endpoints and servers of the examples *)

Module Scenarios.
Definition steady (text : pystr) : nat -> request -> completion :=
  fun _ _ => Content text.
Definition flaky : nat -> request -> completion :=
  fun n _ =>
    match n with
    | O => Failure (py "Connection error.")
    | 1%nat => Content (py "first answer")
    | _ => Content (py "another answer")
    end.
Definition no_message : pystr -> pystr := fun _ => [].
End Scenarios.
Import Scenarios.

Module FetchScenarios.
Definition std_parser : pystr -> outcome pystr :=
  fun url => Returns (urlsplit_scheme url).
Definition page : pystr :=
  py "<html><body>ok ok ok ok ok ok ok ok ok ok ok ok ok ok ok ok</body></html>".
(** A server that answers every request with the same page. *)
Definition page_server : env :=
  {| urlparse_scheme := std_parser;
     http_get := fun _ _ => Response 200 (py "OK") page |}.
(** A server that has no such page. *)
Definition not_found_server : env :=
  {| urlparse_scheme := std_parser;
     http_get := fun _ _ => Response 404 (py "Not Found") (py "no such page") |}.
(** The same behind a certificate that does not verify. *)
Definition self_signed_not_found : env :=
  {| urlparse_scheme := std_parser;
     http_get := fun _ rq =>
       if gr_verify rq then ConnectError (py "certificate verify failed")
       else Response 404 (py "Not Found") (py "no such page") |}.
End FetchScenarios.
Import FetchScenarios.

(** ** The other functions of [utils/ai_wrapper.py] *)

Module AiWrapperStats.

(** [k in d] for a dictionary. *)
Definition dict_has (k : pystr) (d : list (pystr * pyval)) : bool :=
  match dict_get k d with Some _ => true | None => false end.

Section Messages.

(** The text of the [JSONDecodeError] that [json.loads] raises on a
    document, and [str] of a list of strings, as the f-string of line 218
    writes the missing keys. *)
Variable decode_message : pystr -> pystr.
Variable str_of_list : list pystr -> pystr.

(** [validate_json_response]; the keys required are strings. *)
Definition validate_json_response (response : pystr)
    (required_keys : option (list pystr)) : bool * pyval :=
  match json_loads response with
  | Some parsed =>
      match parsed with
      | PDict d =>
          let missing :=
            match required_keys with
            | Some (k :: ks) => filter (fun k => dict_has k d = false) (k :: ks)
            | _ => []
            end in
          match missing with
          | _ :: _ =>
              (false,
               PDict [(py "error",
                       PStr (py "Missing required keys: " ++ str_of_list missing));
                      (py "raw", PStr (slice_to 1000 response))])
          | [] => (true, parsed)
          end
      | _ =>
          (false,
           PDict [(py "error", PStr (py "Response is not a JSON object"));
                  (py "raw", PStr (slice_to 1000 response))])
      end
  | None =>
      (false,
       PDict [(py "error", PStr (py "Invalid JSON: " ++ decode_message response));
              (py "raw", PStr (slice_to 1000 response))])
  end.

End Messages.

(** The entry [cached_prompts] of [get_cache_stats]: the number of keys
    of [_ai_cache].  The entry [cache_keys] lists the first ten keys in
    the order of their insertion, which the map of the model does not
    keep. *)
Definition cached_prompts (w : world) : Z := Z.of_nat (size (ai_cache w)).

End AiWrapperStats.
Import AiWrapperStats.

(** ** [improve_task_with_ai] in [modules/generate_prompts.py] *)

Module GeneratePrompts.

(** [s.split(sep)] for a non-empty [sep]: the texts between the
    occurrences of [sep], found from left to right without overlap.
    [skip] counts the characters of the occurrence in progress that are
    still to be dropped. *)
Fixpoint split_from (sep : pystr) (skip : nat) (s : pystr) : list pystr :=
  match s with
  | [] => [[]]
  | c :: s' =>
      match skip with
      | S k => split_from sep k s'
      | O =>
          if startswith sep s then [] :: split_from sep (length sep - 1) s'
          else match split_from sep 0 s' with
               | l :: ls => (c :: l) :: ls
               | [] => [[c]]
               end
      end
  end.

Definition split_str (sep s : pystr) : list pystr := split_from sep 0 s.

(** The three parts of the f-string of lines 40 to 51. *)
Definition improve_text_1 : pystr :=
  join_lines
    [py "You are a website improvement assistant. Given an issue and a basic task, provide:";
     py "1. A brief explanation (1-2 sentences) of why this issue matters for the website";
     py "2. A simple, clear prompt that a developer can copy-paste to fix it";
     [];
     py "Keep both responses short and avoid code blocks. Use plain English.";
     [];
     py "Issue: "].

Definition improve_text_2 : pystr :=
  join_lines
    [[];
     py "Basic task: "].

Definition improve_text_3 : pystr :=
  join_lines
    [[];
     [];
     py "Respond in this exact format:";
     py "EXPLANATION: [brief explanation]";
     py "PROMPT: [copy-paste prompt]"].

Definition improve_prompt (issue base_task : pystr) : pystr :=
  improve_text_1 ++ issue ++ improve_text_2 ++ base_task ++ improve_text_3.

(** The dictionary returned: the keys [explanation] and [ai_prompt]. *)
Record Improved : Type := {
  explanation : pystr;
  ai_prompt : pystr
}.

Section Remote.

Variable remote : nat -> request -> completion.

(** [improve_task_with_ai].  [smart_ai] does not raise and the rest of
    the body does not either on strings, so the handler of line 72 is
    never entered. *)
Definition improve_task_with_ai (issue base_task : pystr) (w : world)
  : Improved * world :=
  let prompt := improve_prompt issue base_task in
  let '(response_text, w') :=
    smart_ai remote prompt (Some CHEAP_MODEL)
      (Some (py "improve-task-" ++ slice_to 50 issue)) 3 (py "0.2") 200 w in
  if contains (py "EXPLANATION:") response_text
     && contains (py "PROMPT:") response_text
  then
    let parts := split_str (py "PROMPT:") response_text in
    let explanation_part :=
      strip (remove_all (py "EXPLANATION:")
               (match parts with p0 :: _ => p0 | [] => [] end)) in
    let prompt_part :=
      match parts with
      | _ :: p1 :: _ => strip p1
      | _ => []
      end in
    ({| explanation := slice_to 200 explanation_part;
        ai_prompt := slice_to 300 prompt_part |}, w')
  else ({| explanation := base_task; ai_prompt := base_task |}, w').

End Remote.

End GeneratePrompts.

(** ** [generate_tasks] in [modules/task_manager.py] *)

Module TaskManager.

(** The dictionary [issue_mappings]: for an issue, its task and its
    prompt. *)
Definition issue_mappings : list (pystr * (pystr * pystr)) :=
  [(py "missing title",
    (py "Add a title tag to the page.",
     py "Add a <title>Your Page Title</title> tag inside the <head> section. Make it descriptive and under 60 characters."));
   (py "missing meta description",
    (py "Add a meta description tag.",
     py "Add a <meta name='description' content='Brief description of your page'> tag inside the <head> section. Keep it under 160 characters."));
   (py "no H1 tags",
    (py "Add a main heading (H1) to the page.",
     py "Add one clear <h1> tag that describes the main topic of the page. This should be unique and meaningful."));
   (py "multiple H1 tags",
    (py "Use only one H1 tag per page.",
     py "Review your page and keep only one <h1> tag. The other heading levels should be <h2>, <h3>, etc. H1 should be for the main page title only."));
   (py "empty body",
    (py "Add meaningful content to the page body.",
     py "Add content inside the <body> tag. The page appears empty or has no visible text content."))].

Fixpoint mapping_of (issue : pystr) (m : list (pystr * (pystr * pystr)))
  : option (pystr * pystr) :=
  match m with
  | [] => None
  | (k, v) :: m' => if bool_decide (k = issue) then Some v else mapping_of issue m'
  end.

(** One task of the list returned. *)
Record Task : Type := {
  issue : pystr;
  task : pystr;
  prompt : pystr;
  ai_explanation : pystr;
  ai_prompt : pystr;
  done : bool
}.

Section Remote.

Variable remote : nat -> request -> completion.

Fixpoint generate_tasks (basic_issues : list pystr) (w : world)
  : list Task * world :=
  match basic_issues with
  | [] => ([], w)
  | issue :: rest =>
      let '(base_task, base_prompt) :=
        match mapping_of issue issue_mappings with
        | Some mapping => mapping
        | None => (py "Fix: " ++ issue, py "Address the following issue: " ++ issue)
        end in
      let '(ai_enhanced, w1) :=
        GeneratePrompts.improve_task_with_ai remote issue base_task w in
      let t :=
        {| issue := issue; task := base_task; prompt := base_prompt;
           ai_explanation := GeneratePrompts.explanation ai_enhanced;
           ai_prompt := GeneratePrompts.ai_prompt ai_enhanced;
           done := false |} in
      let '(tasks, w2) := generate_tasks rest w1 in
      (t :: tasks, w2)
  end.

End Remote.

End TaskManager.

(** ** [discover_competitors_ai] in [modules/competitor_ai.py] *)

Module CompetitorAi.






Section Remote.

Variable remote : nat -> request -> completion.
Variable decode_message : pystr -> pystr.


End Remote.

End CompetitorAi.

(** ** [fetch_html_with_status] in [utils/browser_fetch.py] *)

Module BrowserFetch.

(** The libraries [fetch_html_with_status] calls: the network, which
    answers the call number [n] of the fetch; [raise_for_status], which
    raises [HTTPStatusError] or not by the status of the response; and
    the parser, as the three steps of lines 152 to 159 use it (the
    document read with [html.parser], its [script] and [noscript]
    elements taken out, the rest written by [prettify]), which may
    raise. *)
Record browser : Type := {
  client_get : nat -> get_request -> get_outcome;
  raise_for_status : Z -> bool;
  prettify_without_scripts : pystr -> outcome pystr
}.

(** The dictionary returned. *)
Record StatusResult : Type := {
  success : bool;
  html : pystr;
  status_code : option Z;
  error : option pystr
}.

Section Fetch.

Variable B : browser.

(** The loop of lines 135 to 205 with [n] rounds left; [log] holds the
    requests sent so far, oldest first.  The handlers of a timeout and
    of [HTTPStatusError] come first and are entered; any other exception
    of the body (of the request, or of the parser) reaches the handler of
    line 177, which names [httpx.SSLError]: matching it raises
    [AttributeError], and nothing in the function catches it.  The
    request without verification of line 185 and the handler of line 202
    are never entered. *)
Fixpoint status_rounds (n : nat) (url : pystr) (timeout : Z)
    (last_error : option pystr) (log : list get_request)
  : outcome StatusResult * list get_request :=
  match n with
  | O =>
      (Returns {| success := false; html := []; status_code := None;
                  error := Some (last_error_or last_error) |}, log)
  | S n' =>
      let rq := {| gr_url := url; gr_verify := true; gr_timeout := timeout |} in
      match client_get B (length log) rq with
      | Response status reason text =>
          if raise_for_status B status then
            (Returns {| success := false; html := []; status_code := Some status;
                        error := Some (py "HTTP error: " ++ int_str status) |},
             log ++ [rq])
          else if (length text <? 50)%nat then
            status_rounds n' url timeout (Some (py "Empty or minimal response"))
              (log ++ [rq])
          else
            match prettify_without_scripts B text with
            | Returns pretty =>
                (Returns {| success := true; html := pretty;
                            status_code := Some status; error := None |},
                 log ++ [rq])
            | Raises _ => (Raises missing_attribute, log ++ [rq])
            end
      | TimeoutException _ =>
          status_rounds n' url timeout
            (Some (py "Request timed out (>" ++ int_str timeout ++ py "s)"))
            (log ++ [rq])
      | ConnectError _ | OtherError _ => (Raises missing_attribute, log ++ [rq])
      end
  end.

(** [fetch_html_with_status]: the dictionary returned, or the text of
    the [AttributeError] that leaves the function.  [is_replit_url] of
    this file is the one of [modules/analyse_html.py], word for word. *)
Definition fetch_html_with_status (url : pystr)
  : outcome StatusResult * list get_request :=
  let timeout := if is_replit_url url then 45%Z else 20%Z in
  status_rounds 3 url timeout None [].

End Fetch.

End BrowserFetch.

(** ** Notions for the properties of these functions *)

Module MoreNotions.

(** The keys [validate_json_response] looks for. *)
Definition required (keys : option (list pystr)) : list pystr :=
  match keys with Some ks => ks | None => [] end.

(** The request of [improve_task_with_ai] and its cache key. *)
Definition improve_request (issue base_task : pystr) : request :=
  request_of (GeneratePrompts.improve_prompt issue base_task) (Some CHEAP_MODEL)
    (py "0.2") 200.

Definition improve_key (issue : pystr) : pystr :=
  py "improve-task-" ++ slice_to 50 issue.

(** The task and the prompt of the rules for an issue. *)
Definition rule_of (issue : pystr) : pystr * pystr :=
  match TaskManager.mapping_of issue TaskManager.issue_mappings with
  | Some mapping => mapping
  | None => (py "Fix: " ++ issue, py "Address the following issue: " ++ issue)
  end.




(** The result holds the text the parser wrote for a page of 50
    characters or more that the network gave to a request of the log. *)
Definition page_parsed (B : BrowserFetch.browser) (r : BrowserFetch.StatusResult)
    (log : list get_request) : Prop :=
  exists k rq status reason text,
    log !! k = Some rq
    /\ BrowserFetch.client_get B k rq = Response status reason text
    /\ (50 <= length text)%nat
    /\ BrowserFetch.prettify_without_scripts B text
       = Returns (BrowserFetch.html r)
    /\ BrowserFetch.status_code r = Some status.

(** The exception left [fetch_html_with_status] on the last request of
    the log: the request raised an exception other than a timeout, or
    the parser raised on the page received. *)
Definition escaped (B : BrowserFetch.browser) (log : list get_request) : Prop :=
  exists k rq,
    log !! k = Some rq /\ length log = S k
    /\ match BrowserFetch.client_get B k rq with
       | Response status reason text =>
           BrowserFetch.raise_for_status B status = false
           /\ (50 <= length text)%nat
           /\ exists msg, BrowserFetch.prettify_without_scripts B text = Raises msg
       | TimeoutException _ => False
       | ConnectError _ | OtherError _ => True
       end.

End MoreNotions.
Import MoreNotions.

Module BrowserScenarios.
(** A server that has no such page, and the same behind a certificate
    that does not verify; [raise_for_status] raises from status 400 on,
    and the parser gives the page back as it is. *)
Definition missing_page : pystr :=
  py "<html><body><h1>404</h1><p>There is no such page here.</p></body></html>".
Definition not_found_browser : BrowserFetch.browser :=
  {| BrowserFetch.client_get :=
       fun _ _ => Response 404 (py "Not Found") missing_page;
     BrowserFetch.raise_for_status := fun status => (400 <=? status)%Z;
     BrowserFetch.prettify_without_scripts := fun text => Returns text |}.
Definition self_signed_browser : BrowserFetch.browser :=
  {| BrowserFetch.client_get := fun _ rq =>
       if gr_verify rq then ConnectError (py "certificate verify failed")
       else Response 404 (py "Not Found") missing_page;
     BrowserFetch.raise_for_status := fun status => (400 <=? status)%Z;
     BrowserFetch.prettify_without_scripts := fun text => Returns text |}.
End BrowserScenarios.
Import BrowserScenarios.

(** * Properties *)

(** ** Stripping *)

Module StrFacts.



Lemma lstrip_fixed c t : isspace c = false -> lstrip (c :: t) = c :: t.
Proof. intros H. simpl. by rewrite H. Qed.

Lemma lstrip_app_nonspace s c t :
  isspace c = false -> exists u, lstrip (s ++ c :: t) = u ++ c :: t /\ lstrip (s ++ [c]) = u ++ [c].
Proof.
  intros Hc. induction s as [|x s IH]; simpl.
  - rewrite Hc. by exists [].
  - destruct (isspace x); [done|]. by exists (x :: s).
Qed.

(** [rstrip] keeps the first character when it is not white space. *)
Lemma rstrip_cons c t : isspace c = false -> exists u, rstrip (c :: t) = c :: u.
Proof.
  intros Hc. unfold rstrip. simpl.
  destruct (lstrip_app_nonspace (rev t) c [] Hc) as (u & Hu & _).
  rewrite Hu, rev_app_distr. simpl. eauto.
Qed.



Lemma strip_nil : strip [] = [].
Proof. reflexivity. Qed.

Lemma strip_cons_nonspace c t : isspace c = false -> strip (c :: t) <> [].
Proof.
  intros Hc. unfold strip. rewrite (lstrip_fixed c t Hc).
  destruct (rstrip_cons c t Hc) as [u ->]. done.
Qed.

End StrFacts.
Import StrFacts.

(** ** The cache of [smart_ai] *)

Module CacheFacts.

Section Remote.
Variable remote : nat -> request -> completion.

(** The loop of [smart_ai], by the first answer with content. *)
Lemma attempts_first_content n rq key w :
  attempts remote n rq key w =
  match first_content remote (length (issued w)) n rq with
  | Some (i, text) =>
      (strip_fence text,
       {| ai_cache := <[key := strip_fence text]> (ai_cache w);
          issued := issued w ++ replicate (S i) rq |})
  | None =>
      (json_dumps AI_FAILED,
       {| ai_cache := ai_cache w; issued := issued w ++ replicate n rq |})
  end.
Proof.
  revert w. induction n as [|n IH]; intros w; simpl.
  - rewrite app_nil_r. by destruct w.
  - destruct (remote (length (issued w)) rq) eqn:Hr.
    + reflexivity.
    + rewrite IH. simpl. rewrite length_app. simpl.
      replace (length (issued w) + 1)%nat with (S (length (issued w))) by lia.
      destruct (first_content _ _ _ _) as [[i t]|]; simpl;
        by rewrite <- app_assoc.
    + rewrite IH. simpl. rewrite length_app. simpl.
      replace (length (issued w) + 1)%nat with (S (length (issued w))) by lia.
      destruct (first_content _ _ _ _) as [[i t]|]; simpl;
        by rewrite <- app_assoc.
Qed.

Lemma first_content_bound start n rq i text :
  first_content remote start n rq = Some (i, text) ->
  (i < n)%nat /\ remote (start + i) rq = Content text.
Proof.
  revert start i. induction n as [|n IH]; intros start i; simpl; [done|].
  destruct (remote start rq) eqn:Hr.
  - intros [= <- <-]. split; [lia|]. by rewrite Nat.add_0_r.
  - destruct (first_content _ _ _ _) as [[j t]|] eqn:Hf; [|done].
    intros [= <- <-]. apply IH in Hf as [? ?]. split; [lia|].
    by replace (start + S j)%nat with (S start + j)%nat by lia.
  - destruct (first_content _ _ _ _) as [[j t]|] eqn:Hf; [|done].
    intros [= <- <-]. apply IH in Hf as [? ?]. split; [lia|].
    by replace (start + S j)%nat with (S start + j)%nat by lia.
Qed.

(** A call of [smart_ai] keeps the requests already sent. *)
Lemma smart_ai_issued_prefix prompt model ck mr temp mt w :
  exists k, issued (smart_ai remote prompt model ck mr temp mt w).2
            = issued w ++ replicate k (request_of prompt model temp mt).
Proof.
  unfold smart_ai. destruct (ai_cache w !! _).
  - exists O. simpl. by rewrite app_nil_r.
  - rewrite attempts_first_content. fold (request_of prompt model temp mt).
    destruct (first_content _ _ _ _) as [[i t]|]; simpl.
    + by exists (S i).
    + by exists (Z.to_nat mr).
Qed.



End Remote.


End CacheFacts.
Import CacheFacts.

(** ** The properties of the AI response layer *)

Module AiProperties.






(** The same on any text that is not blank, reached or not. *)
Lemma parse_guaranteed_cases dm raw :
  strip raw <> [] ->
  match clean_ai_json dm raw with
  | Returns (PDict d) => parse_guaranteed dm raw = PDict d
  | Returns v =>
      parse_guaranteed dm raw = PDict [(py "data", v); (py "raw", PStr raw)]
  | Raises je =>
      parse_guaranteed dm raw
      = PDict [(py "error", PStr (py "Invalid JSON from AI: " ++ slice_to 100 je));
               (py "raw", PStr (slice_to 2000 raw))]
  end.
Proof.
  intros Hs. unfold parse_guaranteed.
  rewrite (bool_decide_eq_false_2 (strip raw = [])) by done.
  rewrite bool_decide_eq_false_2 by (by intros ->).
  cbn [orb]. by destruct (clean_ai_json dm raw) as [[]|].
Qed.

(** The text of the specification's example, and a blank text. *)
Lemma parse_guaranteed_not_json dm :
  parse_guaranteed dm (py "not json at all")
  = PDict [(py "error",
            PStr (py "Invalid JSON from AI: "
                  ++ slice_to 100 (dm (py "not json at all"))));
           (py "raw", PStr (py "not json at all"))].
Proof. reflexivity. Qed.

Lemma parse_guaranteed_blank dm :
  parse_guaranteed dm [32]
  = PDict [(py "error", PStr (py "AI returned empty response"));
           (py "raw", PStr [])].
Proof. reflexivity. Qed.

(** C3: on the text of the specification's example, an object cut in
    the middle of an array, the repair drops what follows the last quote
    and writes two quotes in its place; the repaired text is no JSON and
    [safe_json_ai] returns the error dictionary, not the dictionary of
    [a], 1, and [b], the list of 1 and 2. *)
Theorem truncated_array_not_repaired dm :
  fix_truncated_json (pyq "{'a': 1, 'b': [1,2") = pyq "{'a': 1, 'b'''}"
  /\ json_loads (pyq "{'a': 1, 'b'''}") = None
  /\ (safe_json_ai (steady (pyq "{'a': 1, 'b': [1,2")) dm
        (py "Describe the page") None None 1000 (py "0.2") None fresh).1
     = PDict [(py "error",
               PStr (py "Invalid JSON from AI: "
                     ++ slice_to 100 (dm (pyq "{'a': 1, 'b'''}"))));
              (py "raw", PStr (pyq "{'a': 1, 'b': [1,2"))]
  /\ (safe_json_ai (steady (pyq "{'a': 1, 'b': [1,2")) dm
        (py "Describe the page") None None 1000 (py "0.2") None fresh).1
     <> PDict [(py "a", PInt 1); (py "b", PList [PInt 1; PInt 2])].
Proof.
  split; [by vm_compute|]. split; [by vm_compute|].
  assert ((safe_json_ai (steady (pyq "{'a': 1, 'b': [1,2")) dm
             (py "Describe the page") None None 1000 (py "0.2") None fresh).1
          = PDict [(py "error",
               PStr (py "Invalid JSON from AI: "
                     ++ slice_to 100 (dm (pyq "{'a': 1, 'b'''}"))));
              (py "raw", PStr (pyq "{'a': 1, 'b': [1,2"))]) as ->.
  { reflexivity. }
  split; [done|]. intros H. vm_compute in H. discriminate H.
Qed.

(** C10: the result and the state [safe_json_ai] leaves are the same for
    any two values of [default_response]. *)
Theorem default_response_ignored remote dm prompt model ck mt temp d1 d2 w :
  safe_json_ai remote dm prompt model ck mt temp d1 w
  = safe_json_ai remote dm prompt model ck mt temp d2 w.
Proof. reflexivity. Qed.


Lemma smart_ai_miss remote prompt model ck mr temp mt w :
  ai_cache w !! key_of ck prompt = None ->
  smart_ai remote prompt model ck mr temp mt w
  = attempts remote (Z.to_nat mr) (request_of prompt model temp mt)
      (key_of ck prompt) w.
Proof. intros H. unfold smart_ai. by rewrite H. Qed.






End AiProperties.

(** ** The properties of the fetcher *)

Module FetchProperties.

Section Fetch.
Variable E : env.


Lemma rounds_success n url timeout result last_error log r log' :
  success result = false -> html result = [] ->
  rounds E n url timeout result last_error log = (r, log') ->
  (success r = true -> answered_ok E r log')
  /\ (success r = false -> html r = []).
Proof.
  revert result last_error log.
  induction n as [|n IH]; intros result last_error log Hs Hh; cbn [rounds].
  - intros [= <- <-]. simpl. split; [congruence|done].
  - destruct (http_get E (length log) _) as [status reason text|m|m|m] eqn:Hget;
      try (intros [= <- <-]; simpl; split; [congruence|done]).
    destruct (Z.eqb_spec status 200) as [->|Hst].
    + destruct (length text <? 50)%nat eqn:Hlen; [by apply IH|].
      intros [= <- <-]. split; [|done]. intros _.
      apply Nat.ltb_ge in Hlen.
      split; [|split; [done|split; [done|]]].
      * simpl. destruct text; [simpl in Hlen; lia|done].
      * eexists (length log), _, reason. split; [|exact Hget].
        rewrite lookup_app_r by done. by rewrite Nat.sub_diag.
    + intros [= <- <-]. simpl. split; [congruence|done].
Qed.

Lemma checked_url_turned_down url r :
  checked_url E url = inl r -> success r = false /\ html r = [].
Proof.
  unfold checked_url.
  destruct (urlparse_scheme E url) as [scheme|m]; [|by intros [= <-]].
  case_bool_decide; [by intros [= <-]|].
  destruct scheme as [|c scheme].
  - destruct (urlparse_scheme E (py "https://" ++ url)) as [s2|m];
      [|by intros [= <-]].
    destruct (_ || _); [done|by intros [= <-]].
  - destruct (_ || _); [done|by intros [= <-]].
Qed.

End Fetch.

(** C2: for every address and every behaviour of the URL parser and of
    the network, the result of [fetch_raw_html] has [success] true if and
    only if its [html] is not empty and is the body, of 50 characters or
    more, of a response with status 200 to one of the requests sent. *)
Theorem success_iff_page_received E url :
  let '(r, log) := fetch_raw_html E url in
  success r = true <->
  html r <> [] /\
  exists k rq reason,
    log !! k = Some rq /\ http_get E k rq = Response 200 reason (html r)
    /\ (50 <= length (html r))%nat.
Proof.
  unfold fetch_raw_html.
  destruct (checked_url E url) as [r|url'] eqn:Hc.
  - apply checked_url_turned_down in Hc as [Hs Hh]. rewrite Hs, Hh.
    split; [congruence|]. by intros [? _].
  - destruct (rounds E 3 url' _ empty_result None []) as [r log] eqn:Hr.
    apply rounds_success in Hr as [Hyes Hno]; [|done..].
    split.
    + intros Hs. destruct (Hyes Hs) as (Hne & Hlen & _ & k & rq & reason & Hk & Hg).
      split; [done|]. by exists k, rq, reason.
    + intros [Hne _]. destruct (success r); [done|]. by destruct Hne, Hno.
Qed.

(** C6: when the address passes the checks and the first request is
    answered with a status other than 200, the fetch ends there:
    [success] is false, the status and the reason are in the result, and
    one request was sent.  The first response of a fetch is the answer
    to its first request: a request that raises ends the fetch, as the
    loop [rounds] shows. *)
Theorem first_answer_not_200_is_final E url url' status reason text :
  checked_url E url = inr url' ->
  http_get E 0
    {| gr_url := url'; gr_verify := true;
       gr_timeout := if is_replit_url url' then 45%Z else 20%Z |}
  = Response status reason text ->
  status <> 200%Z ->
  fetch_raw_html E url =
  ({| success := false; status_code := Some status; html := [];
      error := py "HTTP " ++ int_str status ++ py ": " ++ reason |},
   [{| gr_url := url'; gr_verify := true;
       gr_timeout := if is_replit_url url' then 45%Z else 20%Z |}]).
Proof.
  intros Hc Hget Hst. unfold fetch_raw_html. rewrite Hc.
  cbn [rounds length]. rewrite Hget.
  apply Z.eqb_neq in Hst. by rewrite Hst.
Qed.

Lemma first_answer_not_200_is_final_witness :
  fetch_raw_html not_found_server (py "example.com/missing") =
  ({| success := false; status_code := Some 404%Z; html := [];
      error := py "HTTP " ++ int_str 404 ++ py ": " ++ py "Not Found" |},
   [{| gr_url := py "https://example.com/missing"; gr_verify := true;
       gr_timeout :=
         if is_replit_url (py "https://example.com/missing")
         then 45%Z else 20%Z |}]).
Proof.
  apply (first_answer_not_200_is_final not_found_server
           (py "example.com/missing") (py "https://example.com/missing")
           404 (py "Not Found") (py "no such page"));
    [reflexivity | reflexivity | discriminate].
Defined.

(** C7: for an address that is not blank and in which the URL parser
    finds no scheme, while it finds one once [https://] is put in front,
    [fetch_raw_html] gives the same result and sends the same requests
    as for the address with [https://] in front. *)
Theorem missing_scheme_is_https E url :
  urlparse_scheme E url = Returns [] ->
  strip url <> [] ->
  urlparse_scheme E (py "https://" ++ url) <> Returns [] ->
  fetch_raw_html E url = fetch_raw_html E (py "https://" ++ url).
Proof.
  intros Hscheme Hblank Hhttps.
  unfold fetch_raw_html, checked_url. rewrite Hscheme.
  rewrite (bool_decide_eq_false_2 _ Hblank).
  destruct (urlparse_scheme E (py "https://" ++ url)) as [[|c s2]|m] eqn:H2.
  - by destruct Hhttps.
  - rewrite (bool_decide_eq_false_2 (strip (py "https://" ++ url) = []));
      [done|]. by apply strip_cons_nonspace.
  - reflexivity.
Qed.

Lemma missing_scheme_is_https_witness :
  fetch_raw_html page_server (py "example.com")
  = fetch_raw_html page_server (py "https://" ++ py "example.com").
Proof.
  apply (missing_scheme_is_https page_server (py "example.com"));
    [reflexivity | by vm_compute | by vm_compute].
Defined.

(** The scenario of the specification. *)
Lemma fetch_example_com :
  (fetch_raw_html page_server (py "example.com")).1
  = {| success := true; status_code := Some 200%Z; html := page; error := [] |}.
Proof. reflexivity. Qed.

(** An empty address has no scheme; it is turned down, while [https://]
    goes to the network. *)
Lemma empty_url_differs_from_https :
  urlsplit_scheme [] = []
  /\ (fetch_raw_html page_server []).1
     = {| success := false; status_code := None; html := [];
          error := py "URL cannot be empty" |}
  /\ (fetch_raw_html page_server (py "https://" ++ [])).1
     = {| success := true; status_code := Some 200%Z; html := page; error := [] |}
  /\ (fetch_raw_html page_server []).1
     <> (fetch_raw_html page_server (py "https://" ++ [])).1.
Proof. vm_compute. repeat split; congruence. Qed.

End FetchProperties.

(** ** The properties of the HTML reducer *)

Module ReducerProperties.

(** *** Searching a text *)

Lemma startswith_ci_length p s : startswith_ci p s = true -> (length p <= length s)%nat.
Proof.
  revert s. induction p as [|a p IH]; intros [|b s]; simpl; try done; try lia.
  intros [_ H]%andb_prop. apply IH in H. lia.
Qed.

Lemma startswith_ci_app p s t :
  (length p <= length s)%nat -> startswith_ci p (s ++ t) = startswith_ci p s.
Proof.
  revert s. induction p as [|a p IH]; intros [|b s]; simpl; try done; try lia.
  intros H. rewrite IH by lia. done.
Qed.

Lemma find_ci_fits p s n :
  find_ci p s = Some n -> (n + length p <= length s)%nat.
Proof.
  revert n. induction s as [|c s IH]; intros n; simpl.
  - destruct (startswith_ci p []) eqn:Hp; [|done].
    intros [= <-]. apply startswith_ci_length in Hp. simpl in *. lia.
  - destruct (startswith_ci p (c :: s)) eqn:Hp.
    + intros [= <-]. apply startswith_ci_length in Hp. simpl in *. lia.
    + destruct (find_ci p s) as [m|] eqn:Hf; [|done].
      intros [= <-]. specialize (IH m eq_refl). lia.
Qed.

(** A first occurrence stays the first when the text goes on. *)
Lemma find_ci_app p s t n :
  find_ci p s = Some n -> find_ci p (s ++ t) = Some n.
Proof.
  revert n. induction s as [|c s IH]; intros n.
  - simpl. destruct (startswith_ci p []) eqn:Hp; [|done].
    intros [= <-]. destruct p; [|done]. by destruct t.
  - intros Hf. pose proof (find_ci_fits _ _ _ Hf) as Hfit.
    simpl in Hf |- *.
    destruct (startswith_ci p (c :: s)) eqn:Hp.
    + injection Hf as <-.
      change (c :: s ++ t) with ((c :: s) ++ t).
      rewrite startswith_ci_app by (apply startswith_ci_length; done).
      by rewrite Hp.
    + destruct (find_ci p s) as [m|] eqn:Hm; [|done].
      injection Hf as <-.
      change (c :: s ++ t) with ((c :: s) ++ t).
      rewrite startswith_ci_app by (simpl in *; lia).
      rewrite Hp. by rewrite (IH m eq_refl).
Qed.

Lemma find_ci_before p s n i :
  find_ci p s = Some n -> (i < n)%nat -> startswith_ci p (drop i s) = false.
Proof.
  revert n i. induction s as [|c s IH]; intros n i; simpl.
  - destruct (startswith_ci p []); [|done]. intros [= <-]. lia.
  - destruct (startswith_ci p (c :: s)) eqn:Hp; [intros [= <-]; lia|].
    destruct (find_ci p s) as [m|] eqn:Hm; [|done].
    intros [= <-] Hi. destruct i as [|i]; [done|].
    simpl. apply (IH m); [done|lia].
Qed.

Lemma find_str_skip c (a t : pystr) :
  c ∉ a -> find_str [c] (a ++ c :: t) = Some (length a).
Proof.
  induction a as [|x a IH]; intros Hc; simpl.
  - by rewrite N.eqb_refl.
  - apply not_elem_of_cons in Hc as [Hx Ha].
    destruct (N.eqb_spec c x) as [->|_]; [done|].
    simpl. by rewrite IH.
Qed.

(** *** Substitution *)

Lemma re_sub_skip m repl (a b : pystr) :
  re_sub m repl (length a) (a ++ b) = re_sub m repl 0 b.
Proof. induction a as [|c a IH]; simpl; [by destruct b|done]. Qed.

Lemma re_sub_no_match m repl (pre rest : pystr) :
  (forall i, (i < length pre)%nat -> m (drop i (pre ++ rest)) = None) ->
  re_sub m repl 0 (pre ++ rest) = pre ++ re_sub m repl 0 rest.
Proof.
  induction pre as [|c pre IH]; intros H; simpl; [done|].
  pose proof (H O ltac:(simpl; lia)) as H0. simpl in H0. rewrite H0.
  f_equal. apply IH. intros i Hi. apply (H (S i)). simpl. lia.
Qed.

Lemma re_sub_match m repl (blk rest : pystr) n :
  m (blk ++ rest) = Some (S n) -> length blk = S n ->
  re_sub m repl 0 (blk ++ rest) = repl ++ re_sub m repl 0 rest.
Proof.
  destruct blk as [|c blk]; [done|]. simpl. intros -> [= <-].
  by rewrite re_sub_skip.
Qed.

(** *** The script block *)

Lemma spells_spec p t :
  spells p t = true -> startswith_ci p t = true /\ length t = length p.
Proof.
  unfold spells. intros [H1 H2]%andb_prop.
  by apply bool_decide_eq_true in H2.
Qed.

Lemma match_block_script opening attrs body closing post :
  spells script_open opening = true -> 62 ∉ attrs ->
  spells script_close closing = true ->
  find_ci script_close (body ++ closing) = Some (length body) ->
  match_block (py "script") (script_block opening attrs body closing ++ post)
  = Some (length (script_block opening attrs body closing)).
Proof.
  intros [Ho Hlo]%spells_spec Ha [Hc Hlc]%spells_spec Hb.
  unfold match_block, script_block.
  change (60 :: py "script") with script_open.
  change (60 :: 47 :: py "script" ++ [62]) with script_close.
  rewrite <- !app_assoc.
  rewrite (startswith_ci_app script_open opening) by lia.
  rewrite Ho, <- Hlo, drop_app_length.
  change ([62] ++ ?x) with (62 :: x).
  rewrite find_str_skip by done.
  change (attrs ++ 62 :: ?x) with (attrs ++ [62] ++ x).
  rewrite app_assoc.
  replace (S (length attrs)) with (length (attrs ++ [62]))
    by (rewrite length_app; simpl; lia).
  rewrite drop_app_length.
  rewrite (app_assoc body), (find_ci_app _ _ _ _ Hb).
  f_equal. rewrite !length_app.
  change (length script_close) with 9%nat in *.
  change (length script_open) with 7%nat in *. simpl. lia.
Qed.

Lemma script_pass_first_block pre opening attrs body closing post :
  spells script_open opening = true -> 62 ∉ attrs ->
  spells script_close closing = true ->
  find_ci script_open (pre ++ opening) = Some (length pre) ->
  find_ci script_close (body ++ closing) = Some (length body) ->
  script_pass (pre ++ script_block opening attrs body closing ++ post)
  = pre ++ script_pass post.
Proof.
  intros Ho Ha Hc Hpre Hb. unfold script_pass.
  rewrite re_sub_no_match.
  - f_equal.
    pose proof (match_block_script _ _ _ _ post Ho Ha Hc Hb) as Hm.
    destruct (length (script_block opening attrs body closing))
      as [|n] eqn:Hlen.
    { apply spells_spec in Ho as [_ Ho]. unfold script_block in Hlen.
      rewrite length_app, Ho in Hlen. done. }
    by rewrite (re_sub_match _ _ _ _ n Hm Hlen).
  - intros i Hi. unfold match_block.
    change (60 :: py "script") with script_open.
    unfold script_block. rewrite <- !app_assoc, (app_assoc pre).
    rewrite (find_ci_before script_open _ (length pre)); [done| |done].
    by apply find_ci_app.
Qed.

Lemma slice_to_length (s : pystr) limit :
  (0 <= limit)%Z -> (length (slice_to limit s) <= Z.to_nat limit)%nat.
Proof.
  intros H. unfold slice_to, norm_index.
  destruct (Z.ltb_spec limit 0); [lia|]. rewrite length_take. lia.
Qed.

(** C8: for a limit of zero or more the text [extract_limited_html]
    returns is no longer than the limit; and the attributes and the text
    of the first script block of a document, closed by the tag
    [</script>] written in any case of its letters, have no part in the
    result: any other script block in its place gives the same text. *)
Theorem reduce_bounded_and_first_script_dropped
    html limit pre post opening attrs body closing opening' attrs' body' closing' :
  (0 <= limit)%Z ->
  spells script_open opening = true -> spells script_open opening' = true ->
  62 ∉ attrs -> 62 ∉ attrs' ->
  spells script_close closing = true -> spells script_close closing' = true ->
  find_ci script_open (pre ++ opening) = Some (length pre) ->
  find_ci script_open (pre ++ opening') = Some (length pre) ->
  find_ci script_close (body ++ closing) = Some (length body) ->
  find_ci script_close (body' ++ closing') = Some (length body') ->
  (length (extract_limited_html html limit) <= Z.to_nat limit)%nat
  /\ extract_limited_html
       (pre ++ script_block opening attrs body closing ++ post) limit
     = extract_limited_html
         (pre ++ script_block opening' attrs' body' closing' ++ post) limit.
Proof.
  intros Hl Ho Ho' Ha Ha' Hc Hc' Hpre Hpre' Hb Hb'. split.
  - unfold extract_limited_html. destruct html; [simpl; lia|].
    by apply slice_to_length.
  - assert (forall o a b c, spells script_open o = true -> exists x t,
              pre ++ script_block o a b c ++ post = x :: t) as Hne.
    { intros o a b c [Hs Hlen]%spells_spec.
      destruct pre; [|simpl; eauto]. destruct o; [done|]. simpl. eauto. }
    unfold extract_limited_html.
    destruct (Hne opening attrs body closing Ho) as (x & t & Hx).
    destruct (Hne opening' attrs' body' closing' Ho') as (x' & t' & Hx').
    rewrite Hx, Hx', <- Hx, <- Hx'.
    fold script_pass.
    rewrite !script_pass_first_block by done. done.
Qed.

Lemma reduce_bounded_and_first_script_dropped_witness :
  (length (extract_limited_html (py "<p>Hello</p>") 8000) <= Z.to_nat 8000)%nat
  /\ extract_limited_html
       (py "<p>Hello</p>"
        ++ script_block (py "<script") (py " defer") (py "alert(1 < 2)")
             (py "</script>")
        ++ py "<p>Bye</p>") 8000
     = extract_limited_html
         (py "<p>Hello</p>"
          ++ script_block (py "<SCRIPT") [] (py "track()") (py "</Script>")
          ++ py "<p>Bye</p>") 8000.
Proof.
  apply (reduce_bounded_and_first_script_dropped (py "<p>Hello</p>") 8000
           (py "<p>Hello</p>") (py "<p>Bye</p>")
           (py "<script") (py " defer") (py "alert(1 < 2)") (py "</script>")
           (py "<SCRIPT") [] (py "track()") (py "</Script>"));
    [lia | reflexivity | reflexivity
     | apply (bool_decide_unpack _); vm_compute; exact I
     | apply not_elem_of_nil
     | reflexivity | reflexivity | reflexivity | reflexivity
     | reflexivity | reflexivity].
Defined.

(** With the block gone, what is left of the example. *)
Lemma reduce_example :
  extract_limited_html
    (py "<p>Hello</p>"
     ++ script_block (py "<script") (py " defer") (py "alert(1 < 2)")
          (py "</script>")
     ++ py "<p>Bye</p>") 8000
  = py "<p>Hello</p><p>Bye</p>".
Proof. reflexivity. Qed.

(** A negative limit cuts from the end; a closing tag written with a space
    before its bracket is not seen, and the script stays. *)
Lemma reduce_keeps_script_with_spaced_end_tag :
  (Z.of_nat (length (extract_limited_html (py "hello") (-1))) > -1)%Z
  /\ extract_limited_html (py "<script>alert(1)</script >") 8000
     = py "<script>alert(1)</script >"
  /\ contains (py "alert(1)")
       (extract_limited_html (py "<script>alert(1)</script >") 8000) = true.
Proof. by vm_compute. Qed.

End ReducerProperties.

(** ** Numbers *)

Module JsonFacts.

Lemma json_dumps_list l : json_dumps (PList l) = 91 :: items_text l ++ [93].
Proof.
  reflexivity.
Qed.

Lemma json_dumps_dict d : json_dumps (PDict d) = 123 :: members_text d ++ [125].
Proof.
  reflexivity.
Qed.

(** *** Numbers *)


Lemma delimited_stops rest : delimited rest = true -> stops rest = true.
Proof.
  destruct rest as [|c rest]; [done|]. simpl.
  intros [[->%N.eqb_eq| ->%N.eqb_eq]%orb_prop| ->%N.eqb_eq]%orb_prop; done.
Qed.

Lemma span_digits_app s rest :
  stops rest = true ->
  span_digits (s ++ rest) =
  let '(ds, r) := span_digits s in (ds, r ++ rest).
Proof.
  intros Hr. induction s as [|c s IH]; simpl.
  - destruct rest as [|c rest]; [done|]. simpl in *.
    by destruct (is_digit c).
  - destruct (is_digit c); [|done]. rewrite IH. by destruct (span_digits s).
Qed.

Lemma span_digits_stop rest :
  stops rest = true -> span_digits rest = ([], rest).
Proof. exact (span_digits_app [] rest). Qed.

Lemma match_frac_app s rest :
  delimited rest = true ->
  match_frac (s ++ rest) = let '(f, r) := match_frac s in (f, r ++ rest).
Proof.
  intros Hd. pose proof (delimited_stops _ Hd) as Hs.
  destruct s as [|dot [|d s]]; simpl.
  - destruct rest as [|c [|c' rest]]; try done; simpl in *.
    destruct (N.eqb_spec c 46) as [->|]; [done|]. by rewrite andb_false_l.
  - destruct rest as [|c rest]; [done|]. simpl in *.
    destruct (is_digit c); [done|]. by rewrite andb_false_r.
  - destruct ((dot =? 46) && is_digit d); [|done].
    rewrite span_digits_app by done. by destruct (span_digits s).
Qed.

Lemma match_exp_app s rest :
  delimited rest = true ->
  match_exp (s ++ rest) = let '(f, r) := match_exp s in (f, r ++ rest).
Proof.
  intros Hd. pose proof (delimited_stops _ Hd) as Hs.
  unfold match_exp. destruct s as [|e [|x [|d s]]]; cbn [app].
  - destruct rest as [|c rest]; [done|]. simpl in Hd.
    destruct (N.eqb_spec c 101) as [->|]; [done|].
    destruct (N.eqb_spec c 69) as [->|]; [done|]. done.
  - destruct ((e =? 101) || (e =? 69)); [|done].
    destruct rest as [|c rest]; [done|]. simpl in Hd, Hs.
    apply negb_true_iff in Hs. rewrite Hs.
    destruct (N.eqb_spec c 43) as [->|]; [done|].
    destruct (N.eqb_spec c 45) as [->|]; [done|]. done.
  - destruct ((e =? 101) || (e =? 69)); [|done].
    destruct (is_digit x).
    + by rewrite (span_digits_stop rest Hs).
    + destruct ((x =? 43) || (x =? 45)); [|done].
      destruct rest as [|c rest]; [done|]. simpl in Hs.
      apply negb_true_iff in Hs. by rewrite Hs.
  - destruct ((e =? 101) || (e =? 69)); [|done].
    destruct (is_digit x).
    + rewrite (span_digits_app (d :: s) rest Hs
               : span_digits (d :: s ++ rest) = _).
      by destruct (span_digits (d :: s)).
    + destruct ((x =? 43) || (x =? 45)); [|done].
      destruct (is_digit d); [|done].
      rewrite span_digits_app by done. by destruct (span_digits s).
Qed.

Lemma match_digits_app s rest i f e r :
  delimited rest = true ->
  match_digits s = Some (i, f, e, r) ->
  match_digits (s ++ rest) = Some (i, f, e, r ++ rest).
Proof.
  intros Hd. pose proof (delimited_stops _ Hd) as Hs.
  unfold match_digits. destruct s as [|d s2]; [done|]. cbn [app].
  destruct (is_digit d); [|done].
  destruct (d =? 48).
  - rewrite (match_frac_app s2 rest Hd).
    destruct (match_frac s2) as [f' s4].
    rewrite (match_exp_app s4 rest Hd).
    destruct (match_exp s4) as [e' s5]. by intros [= <- <- <- <-].
  - rewrite (span_digits_app s2 rest Hs).
    destruct (span_digits s2) as [ds s3].
    rewrite (match_frac_app s3 rest Hd).
    destruct (match_frac s3) as [f' s4].
    rewrite (match_exp_app s4 rest Hd).
    destruct (match_exp s4) as [e' s5]. by intros [= <- <- <- <-].
Qed.

(** A number read from a text is read the same when a delimiter follows. *)
Lemma match_number_app s rest v r :
  delimited rest = true ->
  match_number s = Some (v, r) ->
  match_number (s ++ rest) = Some (v, r ++ rest).
Proof.
  intros Hd. unfold match_number.
  assert (forall sign s1,
            match match_digits s1 with
            | Some (i, f, e, r') => Some (number_value sign i f e, r')
            | None => None
            end = Some (v, r) ->
            match match_digits (s1 ++ rest) with
            | Some (i, f, e, r') => Some (number_value sign i f e, r')
            | None => None
            end = Some (v, r ++ rest)) as Hsigned.
  { intros sign s1.
    destruct (match_digits s1) as [[[[i f] e] r']|] eqn:Hm; [|done].
    intros [= <- <-]. by rewrite (match_digits_app _ _ _ _ _ _ Hd Hm). }
  destruct s as [|c s]; [done|]. cbn [app].
  destruct (c =? 45); apply Hsigned.
Qed.

(** *** Integers *)

Lemma chars_uint_chars u : chars_uint (uint_chars u) = u.
Proof. induction u; simpl; by rewrite ?IHu. Qed.

Lemma span_digits_uint u : span_digits (uint_chars u) = (uint_chars u, []).
Proof. induction u; simpl; by rewrite ?IHu. Qed.

Lemma nzhead_not_zero u u' : Decimal.nzhead u <> Decimal.D0 u'.
Proof. induction u; simpl; congruence. Qed.

(** The decimal digits of a positive number start with a digit other
    than zero. *)
Lemma to_uint_head p :
  exists d ds, uint_chars (Pos.to_uint p) = d :: ds
    /\ is_digit d = true /\ (d =? 48) = false /\ (d =? 45) = false.
Proof.
  pose proof (DecimalPos.Unsigned.to_of (Pos.to_uint p)) as Hn.
  rewrite DecimalPos.Unsigned.of_to in Hn. simpl in Hn.
  pose proof (Unsigned.to_uint_nonnil p) as Hnil.
  pose proof (Unsigned.to_uint_nonzero p) as Hz.
  destruct (Pos.to_uint p) as [|u|u|u|u|u|u|u|u|u|u] eqn:Hu;
    try (eexists _, _; split; [reflexivity|done]).
  - done.
  - exfalso. unfold Decimal.unorm in Hn. simpl in Hn.
    destruct (Decimal.nzhead u) as [|u0| | | | | | | | |] eqn:Hh;
      try congruence.
    by apply (nzhead_not_zero u u0).
Qed.

Lemma of_uint_chars p : Z.of_uint (chars_uint (uint_chars (Pos.to_uint p))) = Z.pos p.
Proof.
  rewrite chars_uint_chars. unfold Z.of_uint.
  by rewrite DecimalPos.Unsigned.of_to.
Qed.

Lemma match_digits_uint p :
  match_digits (uint_chars (Pos.to_uint p))
  = Some (uint_chars (Pos.to_uint p), [], [], []).
Proof.
  pose proof (span_digits_uint (Pos.to_uint p)) as Hs.
  destruct (to_uint_head p) as (d & ds & Hu & Hd & H0 & _).
  rewrite Hu in *. cbn [span_digits] in Hs. rewrite Hd in Hs.
  unfold match_digits. rewrite Hd, H0.
  destruct (span_digits ds) as [ds' r]. by injection Hs as -> ->.
Qed.

Lemma match_number_int z : match_number (int_str z) = Some (PInt z, []).
Proof.
  unfold int_str, match_number. destruct z as [|p|p]; [reflexivity| |].
  - cbn [Z.to_int].
    assert (match uint_chars (Pos.to_uint p) with
            | c :: s' =>
                if c =? 45 then ([c], s') else ([], uint_chars (Pos.to_uint p))
            | [] => ([], uint_chars (Pos.to_uint p))
            end = ([], uint_chars (Pos.to_uint p))) as ->.
    { destruct (to_uint_head p) as (d & ds & -> & _ & _ & ->). done. }
    rewrite match_digits_uint. unfold number_value. by rewrite of_uint_chars.
  - cbn [Z.to_int]. change (45 =? 45) with true. cbv iota.
    rewrite match_digits_uint. unfold number_value. by rewrite of_uint_chars.
Qed.

End JsonFacts.
Import JsonFacts.

(** ** Strings *)

Module StringFacts.



(** The scanner on a character that stands for itself. *)
Lemma scanstring_plain c T :
  (c =? dquote) = false -> (c =? 92) = false -> (c <? 32) = false ->
  scanstring (c :: T) = on_scanned c (scanstring T).
Proof. intros H1 H2 H3. cbn [scanstring]. by rewrite H1, H2, H3. Qed.

(** The scanner on an escape of four hexadecimal digits. *)
Lemma scanstring_u h1 h2 h3 h4 u T :
  hex4 h1 h2 h3 h4 = Some u ->
  scanstring (92 :: 117 :: h1 :: h2 :: h3 :: h4 :: T) =
  if is_high_surrogate u then
    match T with
    | b :: e' :: g1 :: g2 :: g3 :: g4 :: s4 =>
        if (b =? 92) && (e' =? 117) then
          match hex4 g1 g2 g3 g4 with
          | None => None
          | Some u2 =>
              if is_low_surrogate u2
              then on_scanned (join_surrogates u u2) (scanstring s4)
              else on_scanned u (scanstring T)
          end
        else on_scanned u (scanstring T)
    | _ => on_scanned u (scanstring T)
    end
  else on_scanned u (scanstring T).
Proof.
  intros H. cbn [scanstring].
  change (92 =? dquote) with false. change (92 =? 92) with true.
  change (117 =? 117) with true. cbv iota. rewrite H.
  destruct (is_high_surrogate u); [|done].
  destruct T as [|b [|e' [|g1 [|g2 [|g3 [|g4 s4]]]]]]; try done.
Qed.

(** *** Hexadecimal digits *)

Lemma hexval_hexdigit d : d < 16 -> hexval (hexdigit d) = Some d.
Proof.
  intros H.
  assert (In d (map N.of_nat (seq 0 16))) as Hin.
  { apply in_map_iff. exists (N.to_nat d). split; [lia|].
    apply in_seq. lia. }
  simpl in Hin. repeat (destruct Hin as [<-|Hin]; [reflexivity|]). done.
Qed.

Lemma hex4_u_escape n T :
  n < 0x10000 ->
  exists h1 h2 h3 h4,
    u_escape n ++ T = 92 :: 117 :: h1 :: h2 :: h3 :: h4 :: T
    /\ hex4 h1 h2 h3 h4 = Some n.
Proof.
  intros H. eexists _, _, _, _. split; [reflexivity|].
  unfold hex4.
  rewrite !hexval_hexdigit;
    [| apply N.mod_lt; lia | apply N.mod_lt; lia | apply N.mod_lt; lia
     | apply N.Div0.div_lt_upper_bound; lia].
  f_equal. zify. Z.to_euclidean_division_equations. lia.
Qed.

(** *** Surrogate pairs *)

Lemma lor_shiftl_low a k y : y < 2 ^ k -> N.lor (N.shiftl a k) y = a * 2 ^ k + y.
Proof.
  intros Hy. rewrite N.shiftl_mul_pow2.
  assert (N.land (a * 2 ^ k) y = 0) as Hland.
  { apply N.bits_inj. intros i. rewrite N.land_spec, N.bits_0.
    destruct (N.lt_ge_cases i k) as [Hi|Hi].
    - by rewrite N.mul_pow2_bits_low.
    - destruct (N.eq_dec y 0) as [->|Hy0]; [by rewrite N.bits_0, andb_false_r|].
      rewrite (N.bits_above_log2 y i), andb_false_r; [done|].
      apply N.log2_lt_pow2; [lia|].
      eapply N.lt_le_trans; [exact Hy|]. apply N.pow_le_mono_r; lia. }
  by rewrite N.add_nocarry_lxor, N.lxor_lor.
Qed.

Lemma high_half c :
  0x10000 <= c < 0x110000 ->
  N.lor 0xD800 (N.land (N.shiftr (c - 0x10000) 10) 0x3FF)
  = 0xD800 + (c - 0x10000) / 1024.
Proof.
  intros H. change 0x3FF with (N.ones 10).
  rewrite N.land_ones, N.shiftr_div_pow2.
  change (2 ^ 10) with 1024.
  assert ((c - 0x10000) / 1024 < 1024)
    by (apply N.Div0.div_lt_upper_bound; lia).
  rewrite N.mod_small by done.
  change 0xD800 with (N.shiftl 54 10) at 1.
  rewrite lor_shiftl_low by (change (2 ^ 10) with 1024; lia). done.
Qed.

Lemma low_half c :
  N.lor 0xDC00 (N.land (c - 0x10000) 0x3FF) = 0xDC00 + (c - 0x10000) mod 1024.
Proof.
  change 0x3FF with (N.ones 10). rewrite N.land_ones.
  change (2 ^ 10) with 1024.
  change 0xDC00 with (N.shiftl 55 10) at 1.
  rewrite lor_shiftl_low; [done|]. apply N.mod_lt. done.
Qed.

Lemma join_halves c :
  0x10000 <= c < 0x110000 ->
  join_surrogates (0xD800 + (c - 0x10000) / 1024)
    (0xDC00 + (c - 0x10000) mod 1024) = c.
Proof.
  intros H. unfold join_surrogates.
  rewrite (N.add_comm 0xD800), (N.add_comm 0xDC00), !N.add_sub.
  rewrite lor_shiftl_low by (apply N.mod_lt; done).
  change (2 ^ 10) with 1024.
  pose proof (N.div_mod (c - 0x10000) 1024 ltac:(done)) as Hdm.
  rewrite (N.mul_comm 1024) in Hdm. rewrite <- Hdm. lia.
Qed.

(** *** The scanner on what [encode_basestring_ascii] writes *)


Lemma low_ahead_head b T : (b =? 92) = false -> low_ahead (b :: T) = false.
Proof.
  intros H. destruct T as [|e' [|g1 [|g2 [|g3 [|g4 T]]]]]; try done.
  simpl. by rewrite H.
Qed.

Lemma low_ahead_second b e T : (e =? 117) = false -> low_ahead (b :: e :: T) = false.
Proof.
  intros H. destruct T as [|g1 [|g2 [|g3 [|g4 T]]]]; try done.
  simpl. by rewrite H, andb_false_r.
Qed.

Lemma low_ahead_u h1 h2 h3 h4 u T :
  hex4 h1 h2 h3 h4 = Some u ->
  low_ahead (92 :: 117 :: h1 :: h2 :: h3 :: h4 :: T) = is_low_surrogate u.
Proof. intros H. simpl. by rewrite H. Qed.

Lemma scanstring_u_single h1 h2 h3 h4 u T :
  hex4 h1 h2 h3 h4 = Some u ->
  (is_high_surrogate u = true -> low_ahead T = false) ->
  scanstring (92 :: 117 :: h1 :: h2 :: h3 :: h4 :: T) = on_scanned u (scanstring T).
Proof.
  intros H Hlow. rewrite (scanstring_u _ _ _ _ _ _ H).
  destruct (is_high_surrogate u); [|done]. specialize (Hlow eq_refl).
  destruct T as [|b [|e' [|g1 [|g2 [|g3 [|g4 T]]]]]]; try done.
  simpl in Hlow. destruct ((b =? 92) && (e' =? 117)); [|done].
  simpl in Hlow. destruct (hex4 g1 g2 g3 g4); [|done]. by rewrite Hlow.
Qed.

Lemma scanstring_u_pair h1 h2 h3 h4 g1 g2 g3 g4 hi lo T :
  hex4 h1 h2 h3 h4 = Some hi -> hex4 g1 g2 g3 g4 = Some lo ->
  is_high_surrogate hi = true -> is_low_surrogate lo = true ->
  scanstring (92 :: 117 :: h1 :: h2 :: h3 :: h4
              :: 92 :: 117 :: g1 :: g2 :: g3 :: g4 :: T)
  = on_scanned (join_surrogates hi lo) (scanstring T).
Proof.
  intros Hh Hg Hhi Hlo. rewrite (scanstring_u _ _ _ _ _ _ Hh), Hhi.
  change (92 =? 92) with true. change (117 =? 117) with true. cbv iota beta.
  cbn [andb]. by rewrite Hg, Hlo.
Qed.

Lemma surrogate_halves c :
  0x10000 <= c < 0x110000 ->
  let hi := 0xD800 + (c - 0x10000) / 1024 in
  let lo := 0xDC00 + (c - 0x10000) mod 1024 in
  hi < 0x10000 /\ lo < 0x10000
  /\ is_high_surrogate hi = true /\ is_low_surrogate lo = true
  /\ is_low_surrogate hi = false.
Proof.
  intros H hi lo.
  assert ((c - 0x10000) / 1024 < 1024)
    by (apply N.Div0.div_lt_upper_bound; lia).
  assert ((c - 0x10000) mod 1024 < 1024) by (apply N.mod_lt; done).
  unfold is_high_surrogate, is_low_surrogate, hi, lo.
  generalize dependent ((c - 0x10000) / 1024).
  generalize dependent ((c - 0x10000) mod 1024).
  intros r Hr q Hq. repeat split; try lia.
  - apply andb_true_intro. split; apply N.leb_le; lia.
  - apply andb_true_intro. split; apply N.leb_le; lia.
  - apply andb_false_intro1. apply N.leb_gt. lia.
Qed.

(** One character: what the encoder writes for it is read back as it. *)
Lemma scan_escape_char c T :
  c < 0x110000 ->
  (is_high_surrogate c = true -> low_ahead T = false) ->
  scanstring (escape_char c ++ T) = on_scanned c (scanstring T).
Proof.
  intros Hc Hlow. unfold escape_char.
  destruct (N.eqb_spec c 92) as [->|H92]; [reflexivity|].
  destruct (N.eqb_spec c 34) as [->|H34]; [reflexivity|].
  destruct (N.eqb_spec c 8) as [->|H8]; [reflexivity|].
  destruct (N.eqb_spec c 12) as [->|H12]; [reflexivity|].
  destruct (N.eqb_spec c 10) as [->|H10]; [reflexivity|].
  destruct (N.eqb_spec c 13) as [->|H13]; [reflexivity|].
  destruct (N.eqb_spec c 9) as [->|H9]; [reflexivity|].
  destruct ((32 <=? c) && (c <=? 126)) eqn:Hp.
  - apply andb_prop in Hp as [Hlo%N.leb_le Hhi%N.leb_le].
    apply scanstring_plain.
    + by apply N.eqb_neq.
    + by apply N.eqb_neq.
    + apply N.ltb_ge. lia.
  - destruct (N.ltb_spec c 0x10000) as [Hb|Hb].
    + destruct (hex4_u_escape c T Hb) as (h1 & h2 & h3 & h4 & -> & Hh).
      by apply scanstring_u_single.
    + rewrite high_half, low_half by lia.
      destruct (surrogate_halves c ltac:(lia)) as (Hhi & Hlo & Hish & Hisl & _).
      rewrite <- app_assoc.
      destruct (hex4_u_escape _ (u_escape (0xDC00 + (c - 0x10000) mod 1024) ++ T) Hhi)
        as (h1 & h2 & h3 & h4 & -> & Hh).
      destruct (hex4_u_escape _ T Hlo) as (g1 & g2 & g3 & g4 & -> & Hg).
      rewrite (scanstring_u_pair _ _ _ _ _ _ _ _ _ _ _ Hh Hg Hish Hisl).
      by rewrite join_halves by lia.
Qed.

(** What the encoder writes for a character does not start as the escape
    of a low surrogate, unless the character is one. *)
Lemma low_ahead_escape c T :
  c < 0x110000 -> is_low_surrogate c = false ->
  low_ahead (escape_char c ++ T) = false.
Proof.
  intros Hc Hl. unfold escape_char.
  destruct (N.eqb_spec c 92) as [->|H92]; [by apply low_ahead_second|].
  destruct (N.eqb_spec c 34) as [->|H34]; [by apply low_ahead_second|].
  destruct (N.eqb_spec c 8) as [->|H8]; [by apply low_ahead_second|].
  destruct (N.eqb_spec c 12) as [->|H12]; [by apply low_ahead_second|].
  destruct (N.eqb_spec c 10) as [->|H10]; [by apply low_ahead_second|].
  destruct (N.eqb_spec c 13) as [->|H13]; [by apply low_ahead_second|].
  destruct (N.eqb_spec c 9) as [->|H9]; [by apply low_ahead_second|].
  destruct ((32 <=? c) && (c <=? 126)) eqn:Hp.
  - apply low_ahead_head. by apply N.eqb_neq.
  - destruct (N.ltb_spec c 0x10000) as [Hb|Hb].
    + destruct (hex4_u_escape c T Hb) as (h1 & h2 & h3 & h4 & -> & Hh).
      by rewrite (low_ahead_u _ _ _ _ _ _ Hh).
    + rewrite high_half by lia.
      destruct (surrogate_halves c ltac:(lia)) as (Hhi & _ & _ & _ & Hnl).
      rewrite <- app_assoc.
      destruct (hex4_u_escape _ (u_escape (N.lor 0xDC00 (N.land (c - 0x10000) 0x3FF)) ++ T) Hhi)
        as (h1 & h2 & h3 & h4 & -> & Hh).
      by rewrite (low_ahead_u _ _ _ _ _ _ Hh).
Qed.

Lemma scanstring_encoded s rest :
  text_ok s = true ->
  scanstring (enc s ++ dquote :: rest) = Some (s, rest).
Proof.
  unfold text_ok. intros [Hall Hpair]%andb_prop.
  induction s as [|c s IH]; [reflexivity|].
  cbn [forallb] in Hall. apply andb_prop in Hall as [Hc%N.ltb_lt Hall].
  cbn [no_split_pair] in Hpair. apply andb_prop in Hpair as [Hhead Hpair].
  unfold enc. cbn [map concat]. rewrite <- app_assoc. fold (enc s).
  rewrite scan_escape_char, (IH Hall Hpair); [done|done|].
  intros Hhi. rewrite Hhi in Hhead. cbn [andb] in Hhead.
  destruct s as [|c' s]; [by apply low_ahead_head|].
  apply negb_true_iff in Hhead.
  cbn [forallb] in Hall. apply andb_prop in Hall as [Hc'%N.ltb_lt _].
  unfold enc. cbn [map concat]. rewrite <- app_assoc.
  by apply low_ahead_escape.
Qed.

Lemma scanstring_encode_basestring s rest :
  text_ok s = true ->
  exists T, encode_basestring_ascii s ++ rest = dquote :: T
            /\ scanstring T = Some (s, rest).
Proof.
  intros H. exists (enc s ++ dquote :: rest). split.
  - unfold encode_basestring_ascii, enc. cbn [app]. by rewrite <- app_assoc.
  - by apply scanstring_encoded.
Qed.

End StringFacts.
Import StringFacts.

(** ** Values *)

Module ValueFacts.


Lemma value_ok_dict d :
  value_ok (PDict d) = keys_unique (map fst d) && members_ok d.
Proof. reflexivity. Qed.

Lemma value_ok_list l : value_ok (PList l) = forallb value_ok l.
Proof. reflexivity. Qed.

Lemma keys_unique_NoDup ks : keys_unique ks = true -> NoDup ks.
Proof.
  induction ks as [|k ks IH]; [constructor|].
  cbn [keys_unique]. intros [Hk Hks]%andb_prop. constructor; [|by apply IH].
  apply negb_true_iff in Hk. intros Hin.
  assert (existsb (fun k' => bool_decide (k' = k)) ks = true); [|congruence].
  apply existsb_exists. exists k. split; [by apply list_elem_of_In|].
  by apply bool_decide_eq_true.
Qed.

Lemma dict_set_fresh k v acc :
  k ∉ map fst acc -> dict_set k v acc = acc ++ [(k, v)].
Proof.
  induction acc as [|[k' v'] acc IH]; [done|]. cbn [map fst dict_set].
  intros [Hk Hacc]%not_elem_of_cons.
  rewrite bool_decide_eq_false_2 by congruence. by rewrite IH.
Qed.

(** *** The first character of a value *)

Lemma digit_bounds c : is_digit c = true -> 48 <= c <= 57.
Proof. unfold is_digit. intros [?%N.leb_le ?%N.leb_le]%andb_prop. lia. Qed.

(** A text [match_number] reads starts with a digit, or with a minus
    sign and a digit. *)
Lemma match_number_head s v r :
  match_number s = Some (v, r) ->
  exists c T, s = c :: T /\
    ((48 <= c <= 57) \/ (c = 45 /\ exists d T', T = d :: T' /\ 48 <= d <= 57)).
Proof.
  assert (forall s1, is_Some (match_digits s1) ->
            exists d T', s1 = d :: T' /\ 48 <= d <= 57) as Hdigits.
  { intros [|d T'] [x Hx]; [done|]. exists d, T'. split; [done|].
    apply digit_bounds. unfold match_digits in Hx. by destruct (is_digit d). }
  unfold match_number. destruct s as [|c s]; [done|].
  intros H. exists c, s. split; [done|].
  destruct (N.eqb_spec c 45) as [->|Hc].
  - right. split; [done|]. apply Hdigits.
    by destruct (match_digits s).
  - left. destruct (Hdigits (c :: s)) as (d & T' & [= <- <-] & Hd); [|done].
    by destruct (match_digits (c :: s)).
Qed.

Ltac literal_py :=
  repeat match goal with
         | |- context [py ?s] =>
             let v := eval vm_compute in (py s) in change (py s) with v
         end.

Lemma scan_once_number f s v r :
  match_number s = Some (v, r) -> scan_once (S f) s = Scanned v r.
Proof.
  intros H. destruct (match_number_head _ _ _ H) as (c & T & -> & Hc).
  cbn [scan_once]. rewrite H.
  assert (forall k, k <> c -> (c =? k) = false) as Hne
    by (intros; by apply N.eqb_neq).
  assert (forall k, k <> c -> (k =? c) = false) as Hne'
    by (intros; by apply N.eqb_neq).
  literal_py. cbn [startswith]. unfold dquote.
  destruct Hc as [Hc|[-> (d & T' & -> & Hd)]].
  - rewrite !Hne, !Hne' by lia. done.
  - rewrite (proj2 (N.eqb_neq 73 d)) by lia. done.
Qed.


(** What [json_dumps] writes starts with such a character. *)
Lemma opens_digit c : 48 <= c <= 57 -> opens c.
Proof.
  intros H. unfold opens, is_json_ws.
  rewrite !(proj2 (N.eqb_neq c _)) by lia. split; [done|lia].
Qed.

Lemma json_dumps_head v X :
  value_ok v = true -> exists c T, json_dumps v ++ X = c :: T /\ opens c.
Proof.
  intros Hok. destruct v as [|[]|z|lit|s|l|d].
  - eexists _, _. split; [reflexivity|]. by compute.
  - eexists _, _. split; [reflexivity|]. by compute.
  - eexists _, _. split; [reflexivity|]. by compute.
  - destruct (match_number_head _ _ _ (match_number_int z))
      as (c & T & Hz & Hc). exists c, (T ++ X). cbn [json_dumps].
    rewrite Hz. split; [done|].
    destruct Hc as [Hc|[-> _]]; [by apply opens_digit|by compute].
  - cbn [value_ok] in Hok. unfold float_ok in Hok.
    destruct (match_number lit) as [[v r]|] eqn:Hm; [|done].
    destruct (match_number_head _ _ _ Hm) as (c & T & -> & Hc).
    exists c, (T ++ X). split; [done|].
    destruct Hc as [Hc|[-> _]]; [by apply opens_digit|by compute].
  - eexists _, _. split; [reflexivity|]. by compute.
  - eexists _, _. split; [reflexivity|]. by compute.
  - eexists _, _. split; [reflexivity|]. by compute.
Qed.

Lemma skip_ws_opens c T : opens c -> skip_ws (c :: T) = c :: T.
Proof. intros [H _]. cbn [skip_ws]. by rewrite H. Qed.

Lemma skip_ws_space T : skip_ws (32 :: T) = skip_ws T.
Proof. reflexivity. Qed.

Lemma items_text_head x l X :
  value_ok x = true ->
  exists c T, items_text (x :: l) ++ X = c :: T /\ opens c.
Proof.
  intros Hx. destruct l as [|y l]; cbn [items_text].
  - by apply json_dumps_head.
  - rewrite <- app_assoc. by apply json_dumps_head.
Qed.

Lemma members_text_head k x d X :
  exists T, members_text ((k, x) :: d) ++ X = dquote :: T.
Proof. destruct d as [|[k' y] d]; by eexists. Qed.

(** *** The equations of the scanner *)

Lemma scan_once_string f T :
  scan_once (S f) (dquote :: T) =
  match scanstring T with
  | Some (str, rest) => Scanned (PStr str) rest
  | None => Malformed
  end.
Proof. reflexivity. Qed.

Lemma scan_once_list f T :
  scan_once (S f) (91 :: T) =
  match skip_ws T with
  | c2 :: s2 =>
      if c2 =? 93 then Scanned (PList []) s2
      else parse_elements f (skip_ws T) []
  | [] => Malformed
  end.
Proof. reflexivity. Qed.

Lemma scan_once_dict f T :
  scan_once (S f) (123 :: T) =
  match skip_ws T with
  | c2 :: s2 =>
      if c2 =? 125 then Scanned (PDict []) s2
      else parse_members f (skip_ws T) []
  | [] => Malformed
  end.
Proof. reflexivity. Qed.

Lemma parse_elements_eq f s acc :
  parse_elements (S f) s acc =
  match scan_once f s with
  | Scanned v s1 =>
      match skip_ws s1 with
      | d :: s2 =>
          if d =? 93 then Scanned (PList (acc ++ [v])) s2
          else if d =? 44 then parse_elements f (skip_ws s2) (acc ++ [v])
          else Malformed
      | [] => Malformed
      end
  | Malformed => Malformed
  | Starved => Starved
  end.
Proof. reflexivity. Qed.

Lemma parse_members_eq f T acc :
  parse_members (S f) (dquote :: T) acc =
  match scanstring T with
  | Some (key, s2) =>
      match skip_ws s2 with
      | colon :: s3 =>
          if colon =? 58 then
            match scan_once f (skip_ws s3) with
            | Scanned v s4 =>
                match skip_ws s4 with
                | d :: s5 =>
                    if d =? 125 then Scanned (PDict (dict_set key v acc)) s5
                    else if d =? 44 then
                      parse_members f (skip_ws s5) (dict_set key v acc)
                    else Malformed
                | [] => Malformed
                end
            | Malformed => Malformed
            | Starved => Starved
            end
          else Malformed
      | [] => Malformed
      end
  | None => Malformed
  end.
Proof. reflexivity. Qed.

Lemma items_text_cons x y l :
  items_text (x :: y :: l) = json_dumps x ++ py ", " ++ items_text (y :: l).
Proof. reflexivity. Qed.

Lemma members_text_cons k x k' y d :
  members_text ((k, x) :: (k', y) :: d)
  = encode_basestring_ascii k ++ py ": " ++ json_dumps x ++ py ", "
    ++ members_text ((k', y) :: d).
Proof. reflexivity. Qed.

Lemma list_sum_map_cons {A} (g : A -> nat) x l :
  list_sum (map g (x :: l)) = (g x + list_sum (map g l))%nat.
Proof. reflexivity. Qed.

Lemma weight_pos v : (1 <= weight v)%nat.
Proof. destruct v; simpl; lia. Qed.

(** *** Reading back what [json_dumps] writes *)

Lemma scan_round_trip fuel :
  (forall v rest,
     value_ok v = true -> delimited rest = true -> (weight v <= fuel)%nat ->
     scan_once fuel (json_dumps v ++ rest) = Scanned v rest)
  /\ (forall x l acc rest,
        forallb value_ok (x :: l) = true ->
        (list_sum (map (fun x => S (weight x)) (x :: l)) <= fuel)%nat ->
        parse_elements fuel (items_text (x :: l) ++ 93 :: rest) acc
        = Scanned (PList (acc ++ x :: l)) rest)
  /\ (forall k x d acc rest,
        members_ok ((k, x) :: d) = true ->
        NoDup (map fst (acc ++ (k, x) :: d)) ->
        (list_sum (map (fun kx => S (weight kx.2)) ((k, x) :: d)) <= fuel)%nat ->
        parse_members fuel (members_text ((k, x) :: d) ++ 125 :: rest) acc
        = Scanned (PDict (acc ++ (k, x) :: d)) rest).
Proof.
  induction fuel as [|f (IHv & IHe & IHm)].
  { split; [|split].
    - intros v rest _ _ Hw. pose proof (weight_pos v). lia.
    - intros x l acc rest _ Hw. rewrite list_sum_map_cons in Hw. lia.
    - intros k x d acc rest _ _ Hw. rewrite list_sum_map_cons in Hw. lia. }
  split; [|split].
  - intros v rest Hok Hd Hw. destruct v as [|[]|z|lit|s|l|d].
    + reflexivity.
    + reflexivity.
    + reflexivity.
    + apply scan_once_number.
      apply (match_number_app (int_str z) rest (PInt z) [] Hd).
      apply match_number_int.
    + apply scan_once_number. cbn [value_ok] in Hok. unfold float_ok in Hok.
      destruct (match_number lit) as [[[] [|]]|] eqn:Hm; try done.
      apply bool_decide_eq_true in Hok. subst lit0.
      apply (match_number_app lit rest (PFloat lit) [] Hd Hm).
    + cbn [json_dumps value_ok] in *.
      destruct (scanstring_encode_basestring s rest Hok) as (T & -> & HT).
      by rewrite scan_once_string, HT.
    + rewrite json_dumps_list. destruct l as [|x l]; [reflexivity|].
      cbn [app]. rewrite <- app_assoc, scan_once_list.
      rewrite value_ok_list in Hok.
      pose proof Hok as Hx. cbn [forallb] in Hx. apply andb_prop in Hx as [Hx _].
      destruct (items_text_head x l ([93] ++ rest) Hx) as (c & T & Heq & Hc).
      rewrite Heq, (skip_ws_opens c T Hc).
      rewrite (proj2 (N.eqb_neq c 93)) by apply Hc.
      rewrite <- Heq. apply (IHe x l [] rest Hok).
      change (weight (PList (x :: l)))
        with (S (list_sum (map (fun x => S (weight x)) (x :: l)))) in Hw.
      lia.
    + rewrite json_dumps_dict. destruct d as [|[k x] d]; [reflexivity|].
      cbn [app]. rewrite <- app_assoc, scan_once_dict.
      rewrite value_ok_dict in Hok. apply andb_prop in Hok as [Hu Hok].
      destruct (members_text_head k x d ([125] ++ rest)) as (T & Heq).
      rewrite Heq. cbn [skip_ws]. change (is_json_ws dquote) with false.
      cbv iota. change (dquote =? 125) with false. cbv iota.
      rewrite <- Heq. apply (IHm k x d [] rest Hok).
      * by apply keys_unique_NoDup.
      * change (weight (PDict ((k, x) :: d)))
          with (S (list_sum (map (fun kx => S (weight kx.2)) ((k, x) :: d))))
          in Hw.
        lia.
  - intros x l acc rest Hok Hw. rewrite parse_elements_eq.
    cbn [forallb] in Hok. apply andb_prop in Hok as [Hx Hl].
    rewrite list_sum_map_cons in Hw.
    destruct l as [|y l].
    + cbn [items_text]. rewrite (IHv x (93 :: rest) Hx eq_refl) by lia.
      reflexivity.
    + rewrite items_text_cons, <- !app_assoc.
      rewrite (IHv x (py ", " ++ items_text (y :: l) ++ 93 :: rest) Hx eq_refl)
        by lia.
      literal_py. cbn [app skip_ws].
      change (is_json_ws 44) with false. change (is_json_ws 32) with true.
      cbv iota. change (44 =? 93) with false. change (44 =? 44) with true.
      cbv iota.
      pose proof Hl as Hy. cbn [forallb] in Hy. apply andb_prop in Hy as [Hy _].
      destruct (items_text_head y l (93 :: rest) Hy) as (c & T & Heq & Hc).
      rewrite skip_ws_space, Heq, (skip_ws_opens c T Hc), <- Heq.
      rewrite (IHe y l (acc ++ [x]) rest Hl) by lia.
      by rewrite <- app_assoc.
  - intros k x d acc rest Hok Hnd Hw.
    cbn [members_ok] in Hok.
    apply andb_prop in Hok as [[Hk Hx]%andb_prop Hd].
    rewrite list_sum_map_cons in Hw; cbn [snd] in Hw.
    assert (dict_set k x acc = acc ++ [(k, x)]) as Hset.
    { apply dict_set_fresh. rewrite map_app in Hnd.
      apply NoDup_app in Hnd as (_ & Hdisj & _). intros Hin.
      apply (Hdisj k Hin). cbn [map fst]. apply list_elem_of_here. }
    assert (forall tail,
              (members_text ((k, x) :: d) ++ 125 :: rest
               = encode_basestring_ascii k ++ py ": " ++ json_dumps x ++ tail) ->
              delimited tail = true ->
              parse_members (S f) (members_text ((k, x) :: d) ++ 125 :: rest) acc
              = match skip_ws tail with
                | dl :: s5 =>
                    if dl =? 125 then Scanned (PDict (acc ++ [(k, x)])) s5
                    else if dl =? 44 then
                      parse_members f (skip_ws s5) (acc ++ [(k, x)])
                    else Malformed
                | [] => Malformed
                end) as Hstep.
    { intros tail -> Htail.
      destruct (scanstring_encode_basestring k
                  (py ": " ++ json_dumps x ++ tail) Hk) as (T & -> & HT).
      rewrite parse_members_eq, HT. literal_py. cbn [app skip_ws].
      change (is_json_ws 58) with false. change (is_json_ws 32) with true.
      cbv iota. change (58 =? 58) with true. cbv iota.
      destruct (json_dumps_head x tail Hx) as (c & T' & Heq & Hc).
      rewrite ?skip_ws_space, Heq, (skip_ws_opens c T' Hc), <- Heq.
      rewrite (IHv x tail Hx Htail) by lia. by rewrite Hset. }
    destruct d as [|[k' y] d].
    + rewrite (Hstep (125 :: rest)); [reflexivity| |reflexivity].
      cbn [members_text]. by rewrite <- !app_assoc.
    + rewrite (Hstep (py ", " ++ members_text ((k', y) :: d) ++ 125 :: rest));
        [| by rewrite members_text_cons, <- !app_assoc | reflexivity].
      literal_py. cbn [app skip_ws].
      change (is_json_ws 44) with false. change (is_json_ws 32) with true.
      cbv iota. change (44 =? 125) with false. change (44 =? 44) with true.
      cbv iota.
      destruct (members_text_head k' y d (125 :: rest)) as (T & Heq).
      rewrite ?skip_ws_space, Heq. cbn [skip_ws].
      change (is_json_ws dquote) with false.
      cbv iota. rewrite <- Heq.
      rewrite (IHm k' y d (acc ++ [(k, x)]) rest Hd); [by rewrite <- app_assoc| |lia].
      by rewrite <- app_assoc.
Qed.

(** *** The budget of [json_loads] *)

(** Induction on a value, with the property at hand for the items of a
    list and the values of a dictionary. *)
Lemma pyval_nested_ind (P : pyval -> Prop) :
  P PNone -> (forall b, P (PBool b)) -> (forall z, P (PInt z)) ->
  (forall lit, P (PFloat lit)) -> (forall s, P (PStr s)) ->
  (forall l, Forall P l -> P (PList l)) ->
  (forall d, Forall (fun kx => P kx.2) d -> P (PDict d)) ->
  forall v, P v.
Proof.
  intros HN HB HI HF HS HL HD.
  fix IH 1. intros [|b|z|lit|s|l|d].
  - exact HN.
  - apply HB.
  - apply HI.
  - apply HF.
  - apply HS.
  - apply HL. induction l as [|x l IHl]; constructor; [apply IH|exact IHl].
  - apply HD. induction d as [|[k x] d IHd]; constructor; [apply IH|exact IHd].
Qed.

Lemma weight_le_length v :
  value_ok v = true -> (weight v <= length (json_dumps v))%nat.
Proof.
  induction v as [|b|z|lit|s|l IHl|d IHd] using pyval_nested_ind; intros Hok.
  - simpl. lia.
  - destruct b; simpl; lia.
  - destruct (match_number_head _ _ _ (match_number_int z)) as (c & T & Hz & _).
    cbn [json_dumps weight]. rewrite Hz. simpl. lia.
  - cbn [value_ok] in Hok. unfold float_ok in Hok.
    destruct (match_number lit) as [[v r]|] eqn:Hm; [|done].
    destruct (match_number_head _ _ _ Hm) as (c & T & -> & _). simpl. lia.
  - cbn [json_dumps weight]. unfold encode_basestring_ascii.
    simpl. lia.
  - rewrite json_dumps_list. rewrite value_ok_list in Hok.
    change (weight (PList l))
      with (S (list_sum (map (fun x => S (weight x)) l))).
    cbn [length]. rewrite length_app. cbn [length].
    assert (list_sum (map (fun x => S (weight x)) l)
            <= length (items_text l) + 1)%nat; [|lia].
    induction l as [|x l IH]; [simpl; lia|].
    apply Forall_cons in IHl as [Hx IHl].
    cbn [forallb] in Hok. apply andb_prop in Hok as [Hokx Hok].
    specialize (Hx Hokx). specialize (IH IHl Hok).
    rewrite list_sum_map_cons. destruct l as [|y l].
    + cbn [items_text map list_sum fold_right]. lia.
    + rewrite items_text_cons, !length_app.
      change (length (py ", ")) with 2%nat. lia.
  - rewrite json_dumps_dict. rewrite value_ok_dict in Hok.
    apply andb_prop in Hok as [_ Hok].
    change (weight (PDict d))
      with (S (list_sum (map (fun kx => S (weight kx.2)) d))).
    cbn [length]. rewrite length_app. cbn [length].
    assert (list_sum (map (fun kx => S (weight kx.2)) d)
            <= length (members_text d) + 1)%nat; [|lia].
    induction d as [|[k x] d IH]; [simpl; lia|].
    apply Forall_cons in IHd as [Hx IHd]. cbn [snd] in Hx.
    cbn [members_ok] in Hok.
    apply andb_prop in Hok as [[_ Hokx]%andb_prop Hok].
    specialize (Hx Hokx). specialize (IH IHd Hok).
    rewrite list_sum_map_cons. cbn [snd]. destruct d as [|[k' y] d].
    + cbn [members_text map list_sum fold_right]. rewrite !length_app.
      change (length (py ": ")) with 2%nat. lia.
    + rewrite members_text_cons, !length_app.
      change (length (py ": ")) with 2%nat.
      change (length (py ", ")) with 2%nat. lia.
Qed.

(** [json.loads(json.dumps(v)) == v] *)
Lemma json_loads_dumps v :
  value_ok v = true -> json_loads (json_dumps v) = Some v.
Proof.
  intros Hok. unfold json_loads, decode.
  destruct (json_dumps_head v [] Hok) as (c & T & Heq & Hc).
  rewrite app_nil_r in Heq. rewrite Heq, (skip_ws_opens c T Hc), <- Heq.
  destruct (scan_round_trip (2 * length (json_dumps v) + 2)) as (Hv & _ & _).
  pose proof (Hv v [] Hok eq_refl) as Hs. rewrite app_nil_r in Hs.
  rewrite Hs; [done|]. pose proof (weight_le_length v Hok). lia.
Qed.

End ValueFacts.
Import ValueFacts.

(** ** The budget of the scanner *)

Module Budget.

Lemma skip_ws_length s : (length (skip_ws s) <= length s)%nat.
Proof.
  induction s as [|c s IH]; simpl; [lia|].
  destruct (is_json_ws c); simpl; lia.
Qed.

Lemma scanstring_shorter n s str r :
  (length s <= n)%nat -> scanstring s = Some (str, r) ->
  (length r < length s)%nat.
Proof.
  revert s str r. induction n as [|n IH]; intros s str r Hn H.
  - destruct s; [done|simpl in Hn; lia].
  - destruct s as [|c s1]; [done|]. cbn [scanstring] in H.
    repeat case_match; simplify_eq; cbn [length] in *;
      try match goal with
          | E : scanstring ?x = Some _ |- _ =>
              apply IH in E; [|cbn [length] in *; lia]
          end;
      cbn [length] in *; lia.
Qed.

Lemma span_digits_length s ds r :
  span_digits s = (ds, r) -> (length r <= length s)%nat.
Proof.
  revert ds r. induction s as [|c s IH]; intros ds r; simpl.
  - intros [= <- <-]. simpl. lia.
  - destruct (is_digit c).
    + destruct (span_digits s) as [ds' r'] eqn:E. intros [= <- <-].
      specialize (IH _ _ eq_refl). lia.
    + intros [= <- <-]. simpl. lia.
Qed.

Lemma match_frac_length s f r :
  match_frac s = (f, r) -> (length r <= length s)%nat.
Proof.
  unfold match_frac. intros H.
  repeat case_match; simplify_eq; cbn [length];
    try match goal with
        | E : span_digits _ = _ |- _ => apply span_digits_length in E
        end; lia.
Qed.

Lemma match_exp_length s f r :
  match_exp s = (f, r) -> (length r <= length s)%nat.
Proof.
  unfold match_exp. intros H.
  repeat case_match; simplify_eq; cbn [length];
    try match goal with
        | E : span_digits _ = _ |- _ => apply span_digits_length in E
        end; lia.
Qed.

Lemma match_digits_shorter s i f e r :
  match_digits s = Some (i, f, e, r) -> (length r < length s)%nat.
Proof.
  unfold match_digits. intros H.
  repeat case_match; simplify_eq; cbn [length] in *;
    repeat match goal with
           | E : span_digits _ = _ |- _ => apply span_digits_length in E
           | E : match_frac _ = _ |- _ => apply match_frac_length in E
           | E : match_exp _ = _ |- _ => apply match_exp_length in E
           end; cbn [length] in *; lia.
Qed.

Lemma match_number_shorter s v r :
  match_number s = Some (v, r) -> (length r < length s)%nat.
Proof.
  unfold match_number. intros H.
  repeat case_match; simplify_eq; cbn [length] in *;
    repeat match goal with
           | E : match_digits _ = _ |- _ => apply match_digits_shorter in E
           end; cbn [length] in *; lia.
Qed.

(** With a budget of twice the length of its text and a little more the
    scanner goes to its end, and what it leaves is shorter than what it
    was given. *)
Lemma scan_fed fuel :
  (forall s, (2 * length s + 1 <= fuel)%nat ->
     scan_once fuel s <> Starved
     /\ forall v r, scan_once fuel s = Scanned v r -> (length r < length s)%nat)
  /\ (forall s acc, (2 * length s + 2 <= fuel)%nat ->
        parse_members fuel s acc <> Starved
        /\ forall v r, parse_members fuel s acc = Scanned v r ->
                       (length r < length s)%nat)
  /\ (forall s acc, (2 * length s + 2 <= fuel)%nat ->
        parse_elements fuel s acc <> Starved
        /\ forall v r, parse_elements fuel s acc = Scanned v r ->
                       (length r < length s)%nat).
Proof.
  induction fuel as [|f (IHv & IHm & IHe)].
  { repeat split; intros; lia. }
  assert (forall s n, (length s <= n)%nat -> (2 * n + 1 <= f)%nat ->
            scan_once f s <> Starved
            /\ forall v r, scan_once f s = Scanned v r ->
                           (length r < length s)%nat) as Hv.
  { intros s n Hs Hn. apply IHv. lia. }
  assert (forall s acc n, (length s <= n)%nat -> (2 * n + 2 <= f)%nat ->
            parse_members f s acc <> Starved
            /\ forall v r, parse_members f s acc = Scanned v r ->
                           (length r < length s)%nat) as Hm.
  { intros s acc n Hs Hn. apply IHm. lia. }
  assert (forall s acc n, (length s <= n)%nat -> (2 * n + 2 <= f)%nat ->
            parse_elements f s acc <> Starved
            /\ forall v r, parse_elements f s acc = Scanned v r ->
                           (length r < length s)%nat) as He.
  { intros s acc n Hs Hn. apply IHe. lia. }
  clear IHv IHm IHe.
  split; [|split].
  - intros [|c s] Hf; [done|]. cbn [length] in Hf.
    pose proof (skip_ws_length s) as Hws.
    destruct (Hm (skip_ws s) [] (length s) Hws ltac:(lia)) as [Hm1 Hm2].
    destruct (He (skip_ws s) [] (length s) Hws ltac:(lia)) as [He1 He2].
    cbn [scan_once]. split.
    + repeat case_match; try done.
    + intros v r H.
      repeat case_match; simplify_eq; cbn [length] in *;
        rewrite ?length_drop; cbn [length];
        repeat match goal with
               | E : scanstring _ = Some _ |- _ =>
                   apply (scanstring_shorter _ _ _ _ (Nat.le_refl _)) in E
               | E : match_number _ = Some _ |- _ =>
                   apply match_number_shorter in E
               | E : parse_members f _ _ = Scanned _ _ |- _ => apply Hm2 in E
               | E : parse_elements f _ _ = Scanned _ _ |- _ => apply He2 in E
               | E : skip_ws ?x = _ :: _ |- _ =>
                   apply (f_equal length) in E; cbn [length] in E
               end; cbn [length] in *; lia.
  - intros s acc Hf. cbn [parse_members].
    destruct s as [|q s1]; [done|]. cbn [length] in Hf.
    destruct (q =? dquote); [|done].
    destruct (scanstring s1) as [[key s2]|] eqn:Hk; [|done].
    apply (scanstring_shorter _ _ _ _ (Nat.le_refl _)) in Hk.
    pose proof (skip_ws_length s2) as Hws2.
    destruct (skip_ws s2) as [|colon s3] eqn:Hs2; [done|]. cbn [length] in Hws2.
    destruct (colon =? 58); [|done].
    pose proof (skip_ws_length s3) as Hws3.
    destruct (Hv (skip_ws s3) (length s3) Hws3 ltac:(lia)) as [Hv1 Hv2].
    destruct (scan_once f (skip_ws s3)) as [v s4| |] eqn:Hval; [|done|done].
    specialize (Hv2 _ _ eq_refl).
    pose proof (skip_ws_length s4) as Hws4.
    destruct (skip_ws s4) as [|d s5] eqn:Hs4; [done|]. cbn [length] in Hws4.
    destruct (d =? 125).
    { split; [done|]. intros ? ? [= <- <-]. cbn [length]. lia. }
    destruct (d =? 44); [|done].
    pose proof (skip_ws_length s5) as Hws5.
    destruct (Hm (skip_ws s5) (dict_set key v acc) (length s5) Hws5 ltac:(lia))
      as [Hm1 Hm2].
    split; [done|]. intros v' r H. apply Hm2 in H. cbn [length]. lia.
  - intros s acc Hf. cbn [parse_elements].
    destruct (Hv s (length s) (Nat.le_refl _) ltac:(lia)) as [Hv1 Hv2].
    destruct (scan_once f s) as [v s1| |] eqn:Hval; [|done|done].
    specialize (Hv2 _ _ eq_refl).
    pose proof (skip_ws_length s1) as Hws1.
    destruct (skip_ws s1) as [|d s2] eqn:Hs1; [done|]. cbn [length] in Hws1.
    destruct (d =? 93).
    { split; [done|]. intros ? ? [= <- <-]. lia. }
    destruct (d =? 44); [|done].
    pose proof (skip_ws_length s2) as Hws2.
    destruct (He (skip_ws s2) (acc ++ [v]) (length s2) Hws2 ltac:(lia))
      as [He1 He2].
    split; [done|]. intros v' r H. apply He2 in H. lia.
Qed.

(** [json_loads] goes to the end of its scan: [None] is a decode error. *)
Lemma json_loads_fed s : decode (2 * length s + 2) s <> Starved.
Proof.
  unfold decode. pose proof (skip_ws_length s) as Hws.
  destruct (scan_fed (2 * length s + 2)) as (Hv & _ & _).
  destruct (Hv (skip_ws s) ltac:(lia)) as [Hv1 _].
  destruct (scan_once _ (skip_ws s)) as [v r| |]; [|done|done].
  by destruct (skip_ws r).
Qed.

End Budget.
Import Budget.

(** ** The round trip *)

Module RoundTrip.

Lemma startswith_app p q s : startswith (p ++ q) s = true -> startswith p s = true.
Proof.
  revert s. induction p as [|a p IH]; intros [|b s]; simpl; try done.
  intros [-> H]%andb_prop. by rewrite (IH _ H).
Qed.

Lemma contains_app p q s : contains p s = false -> contains (p ++ q) s = false.
Proof.
  induction s as [|c s IH]; cbn [contains].
  - intros H%orb_false_elim. destruct H as [H _].
    destruct (startswith (p ++ q) []) eqn:Hs; [|done].
    apply startswith_app in Hs. congruence.
  - intros [H1 H2]%orb_false_elim.
    destruct (startswith (p ++ q) (c :: s)) eqn:Hs.
    + apply startswith_app in Hs. congruence.
    + by rewrite IH.
Qed.

(** A text without the marker is left as it is. *)
Lemma remove_all_absent old s : contains old s = false -> remove_all old s = s.
Proof.
  unfold remove_all. induction s as [|c s IH]; [done|].
  cbn [contains remove_from]. intros [H1 H2]%orb_false_elim.
  by rewrite H1, IH.
Qed.

Lemma strip_bounded c s c' :
  isspace c = false -> isspace c' = false ->
  strip (c :: s ++ [c']) = c :: s ++ [c'].
Proof.
  intros Hc Hc'. unfold strip. rewrite (lstrip_fixed c _ Hc).
  unfold rstrip. change (c :: s ++ [c']) with ((c :: s) ++ [c']).
  rewrite rev_app_distr. cbn [rev app].
  rewrite (lstrip_fixed c' _ Hc'). cbn [rev].
  by rewrite rev_app_distr, rev_involutive.
Qed.

Lemma search_braces_object m :
  search_braces (123 :: m ++ [125]) = Some (123 :: m ++ [125]).
Proof.
  unfold search_braces, rfind_char.
  change (123 :: m ++ [125]) with ((123 :: m) ++ [125]).
  rewrite rev_app_distr. cbn [rev app find_char].
  change (123 =? 123) with true. change (125 =? 125) with true. cbv iota.
  change (0 <? 0)%Z with false. cbv iota.
  assert (length (123 :: m ++ [125]) = S (S (length m))) as Hlen
    by (cbn [length]; rewrite length_app; simpl; lia).
  rewrite Hlen.
  replace (0 <=? 0)%Z with true by done.
  replace (0 <? Z.of_nat (S (S (length m))) - 1 - 0)%Z with true
    by (symmetry; apply Z.ltb_lt; lia).
  cbn [andb]. f_equal. unfold slice, norm_index.
  change (0 <? 0)%Z with false. cbv iota.
  destruct (Z.ltb_spec (Z.of_nat (S (S (length m))) - 1 - 0 + 1) 0); [lia|].
  replace (Z.to_nat (Z.of_nat (S (S (length m))) - 1 - 0 + 1))
    with (length (123 :: m ++ [125])) by (rewrite Hlen; lia).
  by rewrite firstn_all.
Qed.

(** C4: for every dictionary of strict JSON values (texts without a
    split surrogate pair, distinct keys) whose serialization holds no
    three backquotes in a row, [parse_guaranteed] applied to
    [json_dumps] of the dictionary returns the dictionary. *)
Theorem parse_guaranteed_round_trip dm d :
  value_ok (PDict d) = true ->
  contains fence (json_dumps (PDict d)) = false ->
  parse_guaranteed dm (json_dumps (PDict d)) = PDict d.
Proof.
  intros Hok Hfence.
  pose proof (json_loads_dumps (PDict d) Hok) as Hloads.
  rewrite json_dumps_dict in *.
  assert (strip (123 :: members_text d ++ [125]) = 123 :: members_text d ++ [125])
    as Hstrip by (by apply strip_bounded).
  unfold parse_guaranteed. rewrite Hstrip.
  rewrite bool_decide_eq_false_2 by done. cbn [orb].
  unfold clean_ai_json.
  rewrite (remove_all_absent (py "```json"))
    by (apply (contains_app fence (py "json")); exact Hfence).
  rewrite (remove_all_absent fence) by exact Hfence.
  by rewrite Hstrip, search_braces_object, Hloads.
Qed.

Lemma parse_guaranteed_round_trip_witness :
  parse_guaranteed no_message
    (json_dumps
       (PDict [(py "title", PStr (py "Caf" ++ [233; 0x1F600]));
               (py "score", PInt (-7));
               (py "ratio", PFloat (py "0.25"));
               (py "ok", PBool true);
               (py "tags", PList [PStr (py "a"); PInt 1]);
               (py "meta", PDict [(py "lang", PStr (py "en"))])]))
  = PDict [(py "title", PStr (py "Caf" ++ [233; 0x1F600]));
           (py "score", PInt (-7));
           (py "ratio", PFloat (py "0.25"));
           (py "ok", PBool true);
           (py "tags", PList [PStr (py "a"); PInt 1]);
           (py "meta", PDict [(py "lang", PStr (py "en"))])].
Proof.
  apply (parse_guaranteed_round_trip no_message); reflexivity.
Defined.

(** A value that holds a code fence loses it, and two surrogates written
    one after the other come back as one character. *)
Lemma fence_in_value_is_lost :
  value_ok (PDict [(py "a", PStr (py "```"))]) = true
  /\ json_dumps (PDict [(py "a", PStr (py "```"))]) = pyq "{'a': '```'}"
  /\ parse_guaranteed no_message (pyq "{'a': '```'}")
     = PDict [(py "a", PStr [])]
  /\ parse_guaranteed no_message
       (json_dumps (PDict [(py "a", PStr (py "```"))]))
     <> PDict [(py "a", PStr (py "```"))]
  /\ parse_guaranteed no_message
       (json_dumps (PDict [(py "a", PStr [0xD83D; 0xDE00])]))
     = PDict [(py "a", PStr [0x1F600])].
Proof. vm_compute. repeat split; congruence. Qed.

End RoundTrip.

(** ** Texts: searching, stripping, removing *)

Module TextFacts.

Lemma lstrip_suffix s : exists u, s = u ++ lstrip s.
Proof.
  induction s as [|c s [u IH]]; simpl; [by exists []|].
  destruct (isspace c); [|by exists []].
  exists (c :: u). simpl. by f_equal.
Qed.

Lemma elem_of_lstrip x s : x ∈ lstrip s -> x ∈ s.
Proof.
  destruct (lstrip_suffix s) as [u Hu]. intros H. rewrite Hu.
  apply elem_of_app. by right.
Qed.

Lemma elem_of_rstrip x s : x ∈ rstrip s -> x ∈ s.
Proof.
  unfold rstrip. rewrite !list_elem_of_In, <- !in_rev, <- !list_elem_of_In.
  intros H%elem_of_lstrip. by apply list_elem_of_In, in_rev, list_elem_of_In.
Qed.

Lemma lstrip_app_keep s c t :
  isspace c = false -> lstrip (s ++ c :: t) = lstrip s ++ c :: t.
Proof.
  intros Hc. induction s as [|x s IH]; simpl.
  - by rewrite Hc.
  - by destruct (isspace x).
Qed.

Lemma rstrip_app_keep s c t :
  isspace c = false -> rstrip (s ++ c :: t) = s ++ c :: rstrip t.
Proof.
  intros Hc. unfold rstrip. rewrite rev_app_distr. cbn [rev].
  rewrite <- app_assoc. cbn [app].
  rewrite (lstrip_app_keep _ _ _ Hc), rev_app_distr. cbn [rev].
  by rewrite rev_involutive, <- app_assoc.
Qed.

Lemma find_char_skip c a t :
  c ∉ a -> find_char c (a ++ c :: t) = Z.of_nat (length a).
Proof.
  induction a as [|x a IH]; intros Hc; cbn [find_char app length].
  - by rewrite N.eqb_refl.
  - apply not_elem_of_cons in Hc as [Hx Ha].
    destruct (N.eqb_spec x c) as [->|_]; [done|].
    rewrite (IH Ha). destruct (Z.ltb_spec (Z.of_nat (length a)) 0); lia.
Qed.

Lemma rfind_char_skip c a t :
  c ∉ t -> rfind_char c (a ++ c :: t) = Z.of_nat (length a).
Proof.
  intros Hc. unfold rfind_char. rewrite rev_app_distr. cbn [rev].
  rewrite <- app_assoc. cbn [app].
  rewrite find_char_skip.
  - rewrite length_rev, length_app. cbn [length].
    destruct (Z.ltb_spec (Z.of_nat (length t)) 0); lia.
  - intros H. apply Hc. by apply list_elem_of_In, in_rev, list_elem_of_In.
Qed.


Lemma startswith_spec p s : startswith p s = true <-> exists b, s = p ++ b.
Proof.
  revert s. induction p as [|a p IH]; intros s; simpl.
  - split; [by exists s|done].
  - destruct s as [|b s].
    + split; [done|]. by intros [? ?].
    + rewrite andb_true_iff, IH, N.eqb_eq. split.
      * intros [-> [t ->]]. by exists t.
      * intros [t [= -> ->]]. eauto.
Qed.

Lemma startswith_length p s : startswith p s = true -> (length p <= length s)%nat.
Proof.
  intros [b ->]%startswith_spec. rewrite length_app. lia.
Qed.

Lemma contains_spec p s : contains p s = true <-> exists a b, s = a ++ p ++ b.
Proof.
  induction s as [|c s IH]; cbn [contains].
  - rewrite orb_false_r, startswith_spec. split.
    + intros [b Hb]. by exists [], b.
    + intros (a & b & H). destruct a; [by exists b|done].
  - rewrite orb_true_iff, startswith_spec, IH. split.
    + intros [[b Hb]|(a & b & ->)]; [by exists [], b|by exists (c :: a), b].
    + intros (a & b & H). destruct a as [|x a].
      * left. by exists b.
      * right. injection H as -> ->. by exists a, b.
Qed.

Lemma contains_inside p a s b :
  contains p (a ++ s ++ b) = false -> contains p s = false.
Proof.
  intros H. destruct (contains p s) eqn:Hs; [|done].
  apply contains_spec in Hs as (x & y & ->).
  assert (contains p (a ++ (x ++ p ++ y) ++ b) = true) as Ht; [|congruence].
  apply contains_spec. exists (a ++ x), (y ++ b). by rewrite <- !app_assoc.
Qed.

(** A character outside the marker keeps the occurrences on its two
    sides apart. *)
Lemma startswith_barrier old s c t :
  c ∉ old -> startswith old (s ++ c :: t) = startswith old s.
Proof.
  revert s. induction old as [|a old IH]; intros s Hc; [done|].
  apply not_elem_of_cons in Hc as [Ha Hc].
  destruct s as [|b s]; simpl.
  - destruct (N.eqb_spec a c) as [->|_]; done.
  - by rewrite IH.
Qed.

Lemma remove_from_barrier old k s c t :
  c ∉ old -> (k <= length s)%nat ->
  remove_from old k (s ++ c :: t) = remove_from old k s ++ remove_from old 0 (c :: t).
Proof.
  intros Hc. revert k. induction s as [|x s IH]; intros k Hk.
  - by replace k with O by (simpl in Hk; lia).
  - destruct k as [|k]; cbn [remove_from app].
    + change (x :: s ++ c :: t) with ((x :: s) ++ c :: t).
      rewrite (startswith_barrier old (x :: s) c t Hc).
      destruct (startswith old (x :: s)) eqn:Hs.
      * apply IH. apply startswith_length in Hs. simpl in Hs. lia.
      * cbn [app]. f_equal. apply IH. lia.
    + apply IH. simpl in Hk. lia.
Qed.

Lemma remove_all_barrier old s c t :
  c ∉ old -> old <> [] ->
  remove_all old (s ++ c :: t) = remove_all old s ++ c :: remove_all old t.
Proof.
  intros Hc Hold. unfold remove_all.
  rewrite remove_from_barrier by (done || lia). f_equal.
  cbn [remove_from]. destruct old as [|a old]; [done|].
  apply not_elem_of_cons in Hc as [Ha _]. simpl.
  destruct (N.eqb_spec a c) as [->|_]; done.
Qed.

Lemma elem_of_remove_from x old k s : x ∈ remove_from old k s -> x ∈ s.
Proof.
  revert k. induction s as [|c s IH]; intros k; [done|].
  destruct k as [|k]; cbn [remove_from].
  - destruct (startswith old (c :: s)).
    + intros H%IH. by right.
    + intros [->|H%IH]%elem_of_cons; [left|by right].
  - intros H%IH. by right.
Qed.

(** An object between two texts, the first without an opening brace and
    the second without a closing one, is what [search_braces] finds. *)
Lemma search_braces_between a m b :
  123 ∉ a -> 125 ∉ b ->
  search_braces (a ++ 123 :: m ++ 125 :: b) = Some (123 :: m ++ [125]).
Proof.
  intros Ha Hb. unfold search_braces.
  rewrite (find_char_skip 123 a _ Ha).
  replace (a ++ 123 :: m ++ 125 :: b) with ((a ++ 123 :: m) ++ 125 :: b)
    by (by rewrite <- app_assoc).
  rewrite (rfind_char_skip 125 _ _ Hb), length_app. cbn [length].
  destruct (Z.leb_spec 0 (Z.of_nat (length a))); [|lia].
  destruct (Z.ltb_spec (Z.of_nat (length a))
              (Z.of_nat (length a + S (length m)))); [|lia].
  cbn [andb]. f_equal. unfold slice, norm_index.
  destruct (Z.ltb_spec (Z.of_nat (length a + S (length m)) + 1) 0); [lia|].
  destruct (Z.ltb_spec (Z.of_nat (length a)) 0); [lia|].
  rewrite Nat2Z.id.
  replace (Z.to_nat (Z.of_nat (length a + S (length m)) + 1))
    with (Nat.add (length (a ++ 123 :: m)) 1%nat)
    by (rewrite length_app; cbn [length]; lia).
  rewrite take_app_add, <- app_assoc, drop_app_length. done.
Qed.

End TextFacts.
Import TextFacts.

(** ** Text around the object of an answer *)

Module CleanProperties.

Lemma marker_free (c : N) (old : pystr) : bool_decide (c ∉ old) = true -> c ∉ old.
Proof. apply bool_decide_eq_true. Qed.

(** The text [clean_ai_json] parses when an object stands between two
    texts. *)
Lemma cleaned_around_object pre m post :
  contains fence (123 :: m ++ [125]) = false ->
  123 ∉ pre -> 125 ∉ post ->
  exists a b,
    (strip (remove_all fence (remove_all (py "```json")
              (pre ++ (123 :: m ++ [125]) ++ post)))
     = a ++ 123 :: m ++ 125 :: b)
    /\ (123 ∉ a) /\ (125 ∉ b).
Proof.
  intros Hf Hpre Hpost.
  assert (contains fence m = false) as Hm
    by (apply (contains_inside fence [123] m [125]); exact Hf).
  assert (contains (py "```json") m = false) as Hm'
    by (apply (RoundTrip.contains_app fence (py "json")); exact Hm).
  exists (lstrip (remove_all fence (remove_all (py "```json") pre))),
         (rstrip (remove_all fence (remove_all (py "```json") post))).
  split; [|split].
  - replace (pre ++ (123 :: m ++ [125]) ++ post)
      with (pre ++ 123 :: (m ++ 125 :: post))
      by (cbn [app]; by rewrite <- !app_assoc).
    rewrite (remove_all_barrier (py "```json") pre 123) by (first [by apply marker_free | done]).
    rewrite (remove_all_barrier (py "```json") m 125) by (first [by apply marker_free | done]).
    rewrite (RoundTrip.remove_all_absent _ m Hm').
    rewrite (remove_all_barrier fence _ 123) by (first [by apply marker_free | done]).
    rewrite (remove_all_barrier fence m 125) by (first [by apply marker_free | done]).
    rewrite (RoundTrip.remove_all_absent _ m Hm).
    unfold strip. rewrite lstrip_app_keep by done.
    rewrite (app_assoc _ [123]), (app_assoc _ m) || idtac.
    replace (lstrip (remove_all fence (remove_all (py "```json") pre))
             ++ 123 :: m ++ 125 :: remove_all fence (remove_all (py "```json") post))
      with ((lstrip (remove_all fence (remove_all (py "```json") pre))
             ++ 123 :: m) ++ 125 :: remove_all fence (remove_all (py "```json") post))
      by (by rewrite <- app_assoc).
    rewrite rstrip_app_keep by done. by rewrite <- app_assoc.
  - intros H%elem_of_lstrip%elem_of_remove_from%elem_of_remove_from. done.
  - intros H%elem_of_rstrip%elem_of_remove_from%elem_of_remove_from. done.
Qed.

(** X1: an object serialized by [json_dumps] is what [clean_ai_json]
    returns when it stands between any two texts, code fences included,
    as long as the text in front holds no opening brace, the text behind
    no closing brace, and the object holds no three backquotes in a row. *)
Theorem clean_ai_json_ignores_surrounding_text dm pre post d :
  value_ok (PDict d) = true ->
  contains fence (json_dumps (PDict d)) = false ->
  123 ∉ pre -> 125 ∉ post ->
  clean_ai_json dm (pre ++ json_dumps (PDict d) ++ post) = Returns (PDict d).
Proof.
  intros Hok Hfence Hpre Hpost.
  pose proof (json_loads_dumps (PDict d) Hok) as Hloads.
  rewrite json_dumps_dict in *.
  destruct (cleaned_around_object pre (members_text d) post Hfence Hpre Hpost)
    as (a & b & Hclean & Ha & Hb).
  unfold clean_ai_json. rewrite Hclean.
  by rewrite (search_braces_between a _ b Ha Hb), Hloads.
Qed.

Lemma clean_ai_json_ignores_surrounding_text_witness :
  clean_ai_json no_message
    ((py "Here is the result:" ++ [10] ++ py "```json" ++ [10])
     ++ json_dumps (PDict [(py "title", PStr (py "Home")); (py "score", PInt 7)])
     ++ ([10] ++ fence ++ [10] ++ py "Let me know if you need more."))
  = Returns (PDict [(py "title", PStr (py "Home")); (py "score", PInt 7)]).
Proof.
  apply (clean_ai_json_ignores_surrounding_text no_message
           (py "Here is the result:" ++ [10] ++ py "```json" ++ [10])
           ([10] ++ fence ++ [10] ++ py "Let me know if you need more.")
           [(py "title", PStr (py "Home")); (py "score", PInt 7)]);
    [reflexivity | reflexivity
     | apply (bool_decide_unpack _); vm_compute; exact I
     | apply (bool_decide_unpack _); vm_compute; exact I].
Defined.

End CleanProperties.

(** ** Lines and fences *)

Module LineFacts.

Lemma split_lines_nonempty s : split_lines s <> [].
Proof.
  destruct s as [|c s]; [done|]. simpl.
  destruct (split_lines s); [done|]. by destruct (c =? newline).
Qed.

Lemma split_lines_one s : newline ∉ s -> split_lines s = [s].
Proof.
  induction s as [|c s IH]; [done|]. intros [Hc Hs]%not_elem_of_cons.
  simpl. rewrite (IH Hs). destruct (N.eqb_spec c newline); done.
Qed.

Lemma split_lines_first a b :
  newline ∉ a -> split_lines (a ++ newline :: b) = a :: split_lines b.
Proof.
  induction a as [|c a IH]; simpl.
  - intros _. destruct (split_lines b) eqn:Hb; [by apply split_lines_nonempty in Hb|].
    done.
  - intros [Hc Ha]%not_elem_of_cons. rewrite (IH Ha).
    destruct (N.eqb_spec c newline); done.
Qed.

Lemma split_lines_last b x :
  newline ∉ x -> split_lines (b ++ newline :: x) = split_lines b ++ [x].
Proof.
  intros Hx. induction b as [|c b IH]; simpl.
  - by rewrite (split_lines_one x Hx).
  - rewrite IH. destruct (split_lines b) eqn:Hb; [by apply split_lines_nonempty in Hb|].
    simpl. by destruct (c =? newline).
Qed.

Lemma join_split_lines s : join_lines (split_lines s) = s.
Proof.
  induction s as [|c s IH]; [done|]. simpl.
  destruct (split_lines s) as [|l ls] eqn:Hs; [by apply split_lines_nonempty in Hs|].
  destruct (N.eqb_spec c newline) as [->|_].
  - by rewrite <- IH.
  - rewrite <- IH. by destruct ls.
Qed.

Lemma lstrip_spaces sp s : forallb isspace sp = true -> lstrip (sp ++ s) = lstrip s.
Proof.
  induction sp as [|c sp IH]; [done|]. simpl.
  intros [-> H]%andb_prop. by apply IH.
Qed.

Lemma rstrip_spaces s sp : forallb isspace sp = true -> rstrip (s ++ sp) = rstrip s.
Proof.
  intros H. unfold rstrip. rewrite rev_app_distr, lstrip_spaces; [done|].
  rewrite forallb_forall in *. intros x Hx. apply H. by apply in_rev.
Qed.

(** White space around a text that starts and ends with other characters
    is what [strip] takes away. *)
Lemma strip_padded sp1 c s c' sp2 :
  forallb isspace sp1 = true -> forallb isspace sp2 = true ->
  isspace c = false -> isspace c' = false ->
  strip (sp1 ++ (c :: s ++ [c']) ++ sp2) = c :: s ++ [c'].
Proof.
  intros H1 H2 Hc Hc'. unfold strip.
  rewrite (lstrip_spaces sp1 _ H1). cbn [app]. rewrite (lstrip_fixed c _ Hc).
  change (c :: (s ++ [c']) ++ sp2) with ((c :: s ++ [c']) ++ sp2).
  rewrite (rstrip_spaces _ sp2 H2).
  change (c :: s ++ [c']) with ((c :: s) ++ [c']).
  by rewrite (rstrip_app_keep _ c' [] Hc').
Qed.

(** A fenced block: the fence and a word on the first line, the fence
    alone on the last. *)
Lemma strip_fence_block sp1 lang body sp2 :
  forallb isspace sp1 = true -> forallb isspace sp2 = true ->
  newline ∉ lang ->
  strip_fence (sp1 ++ (fence ++ lang ++ newline :: body ++ newline :: fence) ++ sp2)
  = strip body.
Proof.
  intros H1 H2 Hlang. unfold strip_fence.
  assert (strip (sp1 ++ (fence ++ lang ++ newline :: body ++ newline :: fence) ++ sp2)
          = fence ++ lang ++ newline :: body ++ newline :: fence) as ->.
  { change (fence ++ lang ++ newline :: body ++ newline :: fence)
      with (96 :: (96 :: 96 :: lang ++ newline :: body ++ newline :: [96; 96] ++ [96])).
    replace (96 :: 96 :: lang ++ newline :: body ++ newline :: [96; 96] ++ [96])
      with ((96 :: 96 :: lang ++ newline :: body ++ newline :: [96; 96]) ++ [96]).
    - by apply strip_padded.
    - cbn [app]. do 2 f_equal. rewrite <- app_assoc. cbn [app]. f_equal. f_equal.
      by rewrite <- app_assoc. }
  assert (startswith fence (fence ++ lang ++ newline :: body ++ newline :: fence) = true)
    as -> by (apply startswith_spec; eauto).
  rewrite app_assoc, split_lines_first.
  2:{ intros [H|H]%elem_of_app; [|done].
      revert H. apply (bool_decide_unpack _). by vm_compute. }
  assert (startswith fence (fence ++ lang) = true)
    as -> by (apply startswith_spec; eauto).
  rewrite split_lines_last by (apply (bool_decide_unpack _); by vm_compute).
  unfold slice_from, norm_index.
  change (1 <? 0)%Z with false. cbv iota.
  change (drop (Z.to_nat 1) ((fence ++ lang) :: split_lines body ++ [fence]))
    with (split_lines body ++ [fence]).
  rewrite last_snoc.
  assert (strip fence = fence) as -> by reflexivity.
  rewrite bool_decide_eq_true_2 by done.
  unfold slice_to, norm_index. change (-1 <? 0)%Z with true. cbv iota.
  rewrite length_app. cbn [length].
  replace (Z.to_nat (Z.of_nat (length (split_lines body) + 1) + -1))
    with (length (split_lines body)) by lia.
  by rewrite take_app_length, join_split_lines.
Qed.


End LineFacts.
Import LineFacts.

(** ** The answers of the endpoint *)

Module AnswerProperties.

(** A call that misses the cache and whose first request is answered
    with a text. *)
Lemma smart_ai_first_answer remote prompt model ck mr temp mt w text :
  ai_cache w !! key_of ck prompt = None -> (0 < mr)%Z ->
  remote (length (issued w)) (request_of prompt model temp mt) = Content text ->
  smart_ai remote prompt model ck mr temp mt w
  = (strip_fence text,
     {| ai_cache := <[key_of ck prompt := strip_fence text]> (ai_cache w);
        issued := issued w ++ [request_of prompt model temp mt] |}).
Proof.
  intros Hmiss Hmr Hr. rewrite AiProperties.smart_ai_miss by done.
  destruct (Z.to_nat mr) as [|n] eqn:Hn; [lia|].
  cbn [attempts]. by rewrite Hr.
Qed.


(** X2: when the answer of the endpoint is a fenced block (the fence and
    an optional word on its first line, the fence alone on its last, white
    space around), [smart_ai] returns and caches the text between the two
    lines, stripped, and has sent one request. *)
Theorem fenced_answer_is_unwrapped
    remote prompt model ck mr temp mt w sp1 lang body sp2 :
  ai_cache w !! key_of ck prompt = None -> (0 < mr)%Z ->
  remote (length (issued w)) (request_of prompt model temp mt)
  = Content (sp1 ++ (fence ++ lang ++ newline :: body ++ newline :: fence) ++ sp2) ->
  forallb isspace sp1 = true -> forallb isspace sp2 = true ->
  newline ∉ lang ->
  smart_ai remote prompt model ck mr temp mt w
  = (strip body,
     {| ai_cache := <[key_of ck prompt := strip body]> (ai_cache w);
        issued := issued w ++ [request_of prompt model temp mt] |}).
Proof.
  intros Hmiss Hmr Hr H1 H2 Hlang.
  rewrite (smart_ai_first_answer _ _ _ _ _ _ _ _ _ Hmiss Hmr Hr).
  by rewrite strip_fence_block.
Qed.

Lemma fenced_answer_is_unwrapped_witness :
  smart_ai
    (steady ([] ++ (fence ++ py "json" ++ newline :: pyq " {'a': 1} "
                    ++ newline :: fence) ++ [newline]))
    (py "Describe the page") None None 3 (py "0.2") 2000 fresh
  = (strip (pyq " {'a': 1} "),
     {| ai_cache := <[key_of None (py "Describe the page")
                      := strip (pyq " {'a': 1} ")]> (ai_cache fresh);
        issued := issued fresh
                  ++ [request_of (py "Describe the page") None (py "0.2") 2000] |}).
Proof.
  apply (fenced_answer_is_unwrapped _ (py "Describe the page") None None 3
           (py "0.2") 2000 fresh [] (py "json") (pyq " {'a': 1} ") [newline]);
    [reflexivity | lia | reflexivity | reflexivity | reflexivity
     | apply (bool_decide_unpack _); vm_compute; exact I].
Defined.



(** The requests of a call of [smart_ai]. *)
Lemma smart_ai_requests remote prompt model ck mr temp mt w :
  exists n, (n <= Z.to_nat mr)%nat
    /\ issued (smart_ai remote prompt model ck mr temp mt w).2
       = issued w ++ replicate n (request_of prompt model temp mt).
Proof.
  unfold smart_ai. fold (request_of prompt model temp mt).
  destruct (ai_cache w !! key_of ck prompt) as [v|] eqn:Hc; cbn [snd].
  - exists O. split; [lia|]. cbn [replicate]. by rewrite app_nil_r.
  - rewrite attempts_first_content.
    destruct (first_content _ _ _ _) as [[i t]|] eqn:Hf; cbn [snd ai_cache issued].
    + apply first_content_bound in Hf as [Hi _]. exists (S i). split; [lia|done].
    + by exists (Z.to_nat mr).
Qed.

(** X4: a call of [smart_ai] keeps every cached answer as it is, changes
    the cache at its own key only, and sends at most [max_retry] requests,
    all the same, after the ones already sent. *)
Theorem smart_ai_keeps_cached_answers remote prompt model ck mr temp mt w :
  let w' := (smart_ai remote prompt model ck mr temp mt w).2 in
  (forall k v, ai_cache w !! k = Some v -> ai_cache w' !! k = Some v)
  /\ (forall k, k <> key_of ck prompt -> ai_cache w' !! k = ai_cache w !! k)
  /\ exists n, (n <= Z.to_nat mr)%nat
       /\ issued w' = issued w ++ replicate n (request_of prompt model temp mt).
Proof.
  split; [|split; [|apply smart_ai_requests]].
  - unfold smart_ai.
    destruct (ai_cache w !! key_of ck prompt) as [v|] eqn:Hc; cbn [snd]; [done|].
    rewrite attempts_first_content.
    destruct (first_content _ _ _ _) as [[i t]|]; cbn [snd ai_cache]; [|done].
    intros k v Hk. rewrite lookup_insert_ne; [done|]. congruence.
  - unfold smart_ai.
    destruct (ai_cache w !! key_of ck prompt) as [v|] eqn:Hc; cbn [snd]; [done|].
    rewrite attempts_first_content.
    destruct (first_content _ _ _ _) as [[i t]|]; cbn [snd ai_cache]; [|done].
    intros k Hk. by rewrite lookup_insert_ne.
Qed.



End AnswerProperties.

(** ** The repair of a truncated text *)

Module RepairProperties.

Lemma count_char_app c a b :
  count_char c (a ++ b) = (count_char c a + count_char c b)%Z.
Proof. unfold count_char. rewrite filter_app, length_app. lia. Qed.

Lemma count_char_replicate c n d :
  count_char c (replicate n d) = if bool_decide (d = c) then Z.of_nat n else 0%Z.
Proof.
  unfold count_char. induction n as [|n IH]; cbn [replicate].
  - by case_bool_decide.
  - rewrite filter_cons. destruct (decide (d = c)) as [Hd|Hd].
    + rewrite bool_decide_eq_true_2 in * by done. cbn [length]. lia.
    + rewrite bool_decide_eq_false_2 in * by done. exact IH.
Qed.

Lemma count_char_spaces c sp :
  isspace c = false -> forallb isspace sp = true -> count_char c sp = 0%Z.
Proof.
  intros Hc. unfold count_char. induction sp as [|x sp IH]; [done|].
  cbn [forallb]. intros [Hx Hsp]%andb_prop. rewrite filter_cons.
  destruct (decide (x = c)) as [Hd|Hd]; [congruence|]. by apply IH.
Qed.

(** What [lstrip] and [rstrip] take away is white space. *)
Lemma lstrip_spaces_off s :
  exists sp, s = sp ++ lstrip s /\ forallb isspace sp = true.
Proof.
  induction s as [|c s (sp & Hs & Hsp)]; simpl; [by exists []|].
  destruct (isspace c) eqn:Hc; [|by exists []].
  exists (c :: sp). simpl. rewrite Hc, Hsp. split; [by f_equal|done].
Qed.

Lemma rstrip_spaces_off s :
  exists sp, s = rstrip s ++ sp /\ forallb isspace sp = true.
Proof.
  destruct (lstrip_spaces_off (rev s)) as (sp & Hs & Hsp).
  exists (rev sp). split.
  - unfold rstrip. by rewrite <- rev_app_distr, <- Hs, rev_involutive.
  - rewrite forallb_forall in *. intros x Hx. apply Hsp. by apply in_rev.
Qed.

Lemma count_char_rstrip c s :
  isspace c = false -> count_char c (rstrip s) = count_char c s.
Proof.
  intros Hc. destruct (rstrip_spaces_off s) as (sp & Hs & Hsp).
  rewrite Hs at 2. rewrite count_char_app, (count_char_spaces c sp Hc Hsp). lia.
Qed.

Lemma endswith_last c s : endswith [c] s = true -> exists u, s = u ++ [c].
Proof.
  unfold endswith. intros [b Hb]%startswith_spec.
  exists (rev b). apply (f_equal (@rev N)) in Hb.
  by rewrite rev_involutive, rev_app_distr in Hb.
Qed.

Lemma slice_to_minus_one {A} (u : list A) x : slice_to (-1) (u ++ [x]) = u.
Proof.
  unfold slice_to, norm_index. change (-1 <? 0)%Z with true. cbv iota.
  rewrite length_app. cbn [length].
  replace (Z.to_nat (Z.of_nat (length u + 1) + -1)) with (length u) by lia.
  by rewrite take_app_length.
Qed.

Lemma count_char_drop_comma c t :
  isspace c = false -> c <> 44 ->
  count_char c (if endswith [44] (rstrip t) then slice_to (-1) (rstrip t) else t)
  = count_char c t.
Proof.
  intros Hc Hcomma. destruct (endswith [44] (rstrip t)) eqn:He; [|done].
  rewrite <- (count_char_rstrip c t Hc).
  apply endswith_last in He as [u ->].
  rewrite slice_to_minus_one, count_char_app.
  unfold count_char at 3. rewrite filter_cons.
  destruct (decide (44 = c)); [congruence|]. simpl. lia.
Qed.

(** The closing characters [fix_truncated_json] appends to a text. *)
Lemma closing_balances t :
  let out :=
    (if endswith [44] (rstrip t) then slice_to (-1) (rstrip t) else t)
    ++ replicate (Z.to_nat (count_char 91 t - count_char 93 t)) 93
    ++ replicate (Z.to_nat (count_char 123 t - count_char 125 t)) 125 in
  count_char 93 out = Z.max (count_char 91 out) (count_char 93 t)
  /\ count_char 125 out = Z.max (count_char 123 out) (count_char 125 t).
Proof.
  intros out. unfold out.
  rewrite !count_char_app, !count_char_replicate, !count_char_drop_comma by done.
  repeat (case_bool_decide; try done).
  unfold count_char. lia.
Qed.

(** X6: in the text [fix_truncated_json] returns, no more brackets are
    opened than closed and no more braces are opened than closed. *)
Theorem fix_truncated_json_closes s :
  (count_char 91 (fix_truncated_json s) <= count_char 93 (fix_truncated_json s))%Z
  /\ (count_char 123 (fix_truncated_json s) <= count_char 125 (fix_truncated_json s))%Z.
Proof.
  unfold fix_truncated_json. cbv zeta.
  match goal with
  | |- context [replicate (Z.to_nat (count_char 91 ?t - _)) _] =>
      pose proof (closing_balances t) as [H1 H2]
  end.
  rewrite app_assoc in H1, H2. lia.
Qed.

End RepairProperties.

(** ** The size and the spaces of a reduced page *)

Module ReducerBounds.

(** *** The length of a substitution *)

Lemma re_sub_delete_length m k s :
  (length (re_sub m [] k s) <= length s - k)%nat.
Proof.
  revert k. induction s as [|c s IH]; intros k; [simpl; lia|].
  destruct k as [|k]; cbn [re_sub length].
  - destruct (m (c :: s)) as [[|n]|]; cbn [app length].
    + specialize (IH O). lia.
    + specialize (IH n). lia.
    + specialize (IH O). lia.
  - specialize (IH k). lia.
Qed.

Lemma re_sub_shorter_length m repl k s :
  (forall t n, m t = Some n -> (length repl <= n <= length t)%nat) ->
  (length (re_sub m repl k s) <= length s - k)%nat.
Proof.
  intros Hm. revert k. induction s as [|c s IH]; intros k; [simpl; lia|].
  destruct k as [|k]; cbn [re_sub length].
  - destruct (m (c :: s)) as [[|n]|] eqn:Hc; cbn [length].
    + specialize (IH O). lia.
    + apply Hm in Hc. cbn [length] in Hc. rewrite length_app.
      specialize (IH n). lia.
    + specialize (IH O). lia.
  - specialize (IH k). lia.
Qed.

Lemma span_length_le f s : (span_length f s <= length s)%nat.
Proof. induction s as [|c s IH]; simpl; [lia|]. destruct (f c); simpl; lia. Qed.

Lemma match_spaces_fits t n :
  match_spaces t = Some n -> (length [32] <= n <= length t)%nat.
Proof.
  unfold match_spaces. pose proof (span_length_le isspace t).
  destruct (span_length isspace t); [done|]. intros [= <-]. simpl. lia.
Qed.

Lemma match_blob_fits t n :
  match_blob t = Some n -> (length [123; 125] <= n <= length t)%nat.
Proof.
  unfold match_blob. destruct t as [|c t]; [done|].
  destruct (c =? 123); [|done].
  set (m := span_length _ t).
  destruct ((500 <=? m)%nat && startswith [125] (drop m t)) eqn:H; [|done].
  apply andb_prop in H as [_ H]. apply startswith_length in H.
  rewrite length_drop in H. intros [= <-]. simpl in *. lia.
Qed.

(** X7: the text [extract_limited_html] returns is never longer than the
    text it is given, whatever the limit. *)
Theorem reduce_never_longer html limit :
  (length (extract_limited_html html limit) <= length html)%nat.
Proof.
  unfold extract_limited_html. destruct html as [|c html]; [simpl; lia|].
  set (h := c :: html). unfold slice_to. rewrite length_take.
  pose proof (re_sub_delete_length (match_block (py "script")) 0 h).
  pose proof (re_sub_delete_length (match_block (py "style")) 0
                (re_sub (match_block (py "script")) [] 0 h)).
  pose proof (re_sub_delete_length match_comment 0
                (re_sub (match_block (py "style")) [] 0
                   (re_sub (match_block (py "script")) [] 0 h))).
  pose proof (re_sub_delete_length (match_block (py "noscript")) 0
                (re_sub match_comment [] 0
                   (re_sub (match_block (py "style")) [] 0
                      (re_sub (match_block (py "script")) [] 0 h)))).
  pose proof (re_sub_shorter_length match_spaces [32] 0
                (re_sub (match_block (py "noscript")) [] 0
                   (re_sub match_comment [] 0
                      (re_sub (match_block (py "style")) [] 0
                         (re_sub (match_block (py "script")) [] 0 h))))
                match_spaces_fits).
  pose proof (re_sub_delete_length match_data_attr 0
                (re_sub match_spaces [32] 0
                   (re_sub (match_block (py "noscript")) [] 0
                      (re_sub match_comment [] 0
                         (re_sub (match_block (py "style")) [] 0
                            (re_sub (match_block (py "script")) [] 0 h)))))).
  pose proof (re_sub_shorter_length match_blob [123; 125] 0
                (re_sub match_data_attr [] 0
                   (re_sub match_spaces [32] 0
                      (re_sub (match_block (py "noscript")) [] 0
                         (re_sub match_comment [] 0
                            (re_sub (match_block (py "style")) [] 0
                               (re_sub (match_block (py "script")) [] 0 h))))))
                match_blob_fits).
  lia.
Qed.

(** *** The characters of a substitution *)

Lemma elem_of_re_sub m repl k s x :
  x ∈ re_sub m repl k s -> x ∈ s \/ x ∈ repl.
Proof.
  revert k. induction s as [|c s IH]; intros k; [by left|].
  destruct k as [|k]; cbn [re_sub].
  - destruct (m (c :: s)) as [[|n]|].
    + intros [->|[H|H]%IH]%elem_of_cons; [left; left|left; by right|by right].
    + intros [H|[H|H]%IH]%elem_of_app; [by right|left; by right|by right].
    + intros [->|[H|H]%IH]%elem_of_cons; [left; left|left; by right|by right].
  - intros [H|H]%IH; [left; by right|by right].
Qed.

Lemma re_sub_spaces k s x :
  x ∈ re_sub match_spaces [32] k s -> isspace x = true -> x = 32.
Proof.
  revert k. induction s as [|c s IH]; intros k; [simpl; by intros ?%elem_of_nil|].
  destruct k as [|k]; cbn [re_sub]; [|apply IH].
  unfold match_spaces. cbn [span_length].
  destruct (isspace c) eqn:Hc.
  - intros [H|H]%elem_of_app; [|exact (IH _ H)].
    apply list_elem_of_singleton in H. done.
  - intros [->|H]%elem_of_cons; [congruence|exact (IH _ H)].
Qed.

Lemma reduce_space_is_plain html limit x :
  x ∈ extract_limited_html html limit -> isspace x = true -> x = 32.
Proof.
  unfold extract_limited_html. destruct html as [|c html]; [by intros ?%elem_of_nil|].
  unfold slice_to. intros Hx%elem_of_take Hs. destruct Hx as (i & Hx%list_elem_of_lookup_2 & _).
  apply elem_of_re_sub in Hx as [Hx|Hx].
  - apply elem_of_re_sub in Hx as [Hx|Hx]; [|by apply elem_of_nil in Hx].
    exact (re_sub_spaces _ _ _ Hx Hs).
  - apply elem_of_cons in Hx as [->|Hx]; [done|].
    apply list_elem_of_singleton in Hx. by subst.
Qed.

(** X8: the only white space in the text [extract_limited_html] returns
    is the space character: no tab, no line break, no other space of
    Unicode. *)
Theorem reduce_leaves_plain_spaces html limit :
  forallb (fun x => negb (isspace x) || (x =? 32))
    (extract_limited_html html limit) = true.
Proof.
  apply forallb_forall. intros x Hx%list_elem_of_In.
  destruct (isspace x) eqn:Hs; [|done].
  apply (reduce_space_is_plain _ _ _ Hx) in Hs. by subst.
Qed.

End ReducerBounds.

(** ** The requests and the results of [fetch_raw_html] *)

Module FetchInvariants.

Section Fetch.
Variable E : env.

(** The requests of the loop: one in a round, always the same, with
    certificates verified. *)
Lemma rounds_requests n url timeout result last_error log r log' :
  rounds E n url timeout result last_error log = (r, log') ->
  exists k, (k <= n)%nat
    /\ log' = log ++ replicate k {| gr_url := url; gr_verify := true;
                                    gr_timeout := timeout |}.
Proof.
  revert result last_error log.
  induction n as [|n IH]; intros result last_error log; cbn [rounds].
  - intros [= <- <-]. exists O. split; [lia|]. cbn [replicate]. by rewrite app_nil_r.
  - set (rq := {| gr_url := url; gr_verify := true; gr_timeout := timeout |}).
    assert (exists k, (k <= S n)%nat /\ log ++ [rq] = log ++ replicate k rq) as Hend
      by (exists 1%nat; split; [lia|done]).
    destruct (http_get E (length log) rq) as [status reason text|m|m|m];
      try (by intros [= <- <-]).
    destruct (status =? 200)%Z; [|by intros [= <- <-]].
    destruct (length text <? 50)%nat; [|by intros [= <- <-]].
    intros (k & Hk & ->)%IH. exists (S k). split; [lia|].
    by rewrite <- app_assoc.
Qed.

(** The error text of the loop. *)
Lemma last_error_or_nonempty le : last_error_or le <> [].
Proof. by destruct le as [[|c e]|]. Qed.

Lemma rounds_error n url timeout result last_error log r log' :
  success result = false -> html result = [] -> error result = [] ->
  rounds E n url timeout result last_error log = (r, log') ->
  if success r then error r = [] /\ status_code r = Some 200%Z
  else error r <> [] /\ html r = [].
Proof.
  revert result last_error log.
  induction n as [|n IH]; intros result last_error log Hs Hh He; cbn [rounds].
  - intros [= <- <-]. simpl. rewrite Hs. split; [apply last_error_or_nonempty|done].
  - destruct (http_get E (length log) _) as [status reason text|m|m|m];
      try (intros [= <- <-]; simpl; by rewrite Hs).
    destruct (Z.eqb_spec status 200) as [->|Hst].
    + destruct (length text <? 50)%nat; [by apply IH|].
      intros [= <- <-]. simpl. done.
    + intros [= <- <-]. simpl. rewrite Hs. done.
Qed.

Lemma checked_url_error url r :
  checked_url E url = inl r -> success r = false /\ error r <> [] /\ html r = [].
Proof.
  unfold checked_url.
  destruct (urlparse_scheme E url) as [scheme|m]; [|by intros [= <-]].
  case_bool_decide; [by intros [= <-]|].
  destruct scheme as [|c scheme].
  - destruct (urlparse_scheme E (py "https://" ++ url)) as [s2|m];
      [|by intros [= <-]].
    destruct (_ || _); [done|by intros [= <-]].
  - destruct (_ || _); [done|by intros [= <-]].
Qed.

End Fetch.

(** X9: [fetch_raw_html] sends three requests at most; an address that
    is turned down sends none; and all the requests of a fetch are the
    same one: to the checked address, with certificates verified, with a
    timeout of 45 seconds for an address of Replit and of 20 seconds
    otherwise. *)
Theorem fetch_requests_bounded_and_uniform E url :
  let '(r, log) := fetch_raw_html E url in
  match checked_url E url with
  | inl _ => log = []
  | inr url' =>
      exists k, (k <= 3)%nat
        /\ log = replicate k
                   {| gr_url := url'; gr_verify := true;
                      gr_timeout := if is_replit_url url' then 45%Z else 20%Z |}
  end.
Proof.
  unfold fetch_raw_html. destruct (checked_url E url) as [r|url']; [done|].
  destruct (rounds E 3 url' _ empty_result None []) as [r log] eqn:Hr.
  apply rounds_requests in Hr as (k & Hk & ->). by exists k.
Qed.

(** X10: a request that raises, whatever the exception (a connection or
    certificate error, a timeout, any other), ends the fetch: when the
    requests before it, if any, were answered with status 200 and fewer
    than 50 characters, [fetch_raw_html] fails with the message of an
    unexpected [AttributeError] and sends nothing after it, neither a
    request without verification nor another attempt. *)
Theorem request_exception_ends_fetch E url url' k :
  checked_url E url = inr url' ->
  (k < 3)%nat ->
  (forall j, (j < k)%nat -> exists reason text,
      http_get E j {| gr_url := url'; gr_verify := true;
                      gr_timeout := if is_replit_url url' then 45%Z else 20%Z |}
      = Response 200 reason text /\ (length text < 50)%nat) ->
  (forall status reason text,
      http_get E k {| gr_url := url'; gr_verify := true;
                      gr_timeout := if is_replit_url url' then 45%Z else 20%Z |}
      <> Response status reason text) ->
  fetch_raw_html E url
  = ({| success := false;
        status_code := if k is O then None else Some 200%Z;
        html := [];
        error := py "Unexpected error: AttributeError: " ++ missing_attribute |},
     replicate (S k)
       {| gr_url := url'; gr_verify := true;
          gr_timeout := if is_replit_url url' then 45%Z else 20%Z |}).
Proof.
  intros Hc Hk Hshort Hexc. unfold fetch_raw_html. rewrite Hc.
  assert (forall result last_error (log : list get_request) n,
            (forall status reason text,
                http_get E (length log)
                  {| gr_url := url'; gr_verify := true;
                     gr_timeout := if is_replit_url url' then 45%Z else 20%Z |}
                <> Response status reason text) ->
            rounds E (S n) url' (if is_replit_url url' then 45%Z else 20%Z)
              result last_error log
            = (set_error result
                 (py "Unexpected error: AttributeError: " ++ missing_attribute),
               log ++ [{| gr_url := url'; gr_verify := true;
                          gr_timeout := if is_replit_url url'
                                        then 45%Z else 20%Z |}])) as Hraise.
  { intros result last_error log n Hno. cbn [rounds].
    destruct (http_get E (length log) _) as [status reason text|m|m|m] eqn:Hget;
      [by destruct (Hno status reason text)|done..]. }
  assert (forall result last_error (log : list get_request) n reason text,
            http_get E (length log)
              {| gr_url := url'; gr_verify := true;
                 gr_timeout := if is_replit_url url' then 45%Z else 20%Z |}
            = Response 200 reason text ->
            (length text <? 50)%nat = true ->
            rounds E (S n) url' (if is_replit_url url' then 45%Z else 20%Z)
              result last_error log
            = rounds E n url' (if is_replit_url url' then 45%Z else 20%Z)
                (set_status result 200)
                (Some (py "Empty or slow response from server"))
                (log ++ [{| gr_url := url'; gr_verify := true;
                            gr_timeout := if is_replit_url url'
                                          then 45%Z else 20%Z |}])) as Hstep.
  { intros result last_error log n reason text Hget Hlen. cbn [rounds].
    rewrite Hget. change (200 =? 200)%Z with true. cbv iota. by rewrite Hlen. }
  cbv zeta. destruct k as [|[|[|k]]]; [| | |lia].
  - by rewrite Hraise by exact Hexc.
  - destruct (Hshort 0%nat ltac:(lia)) as (r0 & t0 & H0 & L0%Nat.ltb_lt).
    rewrite (Hstep _ _ [] _ r0 t0 H0 L0).
    by rewrite Hraise by exact Hexc.
  - destruct (Hshort 0%nat ltac:(lia)) as (r0 & t0 & H0 & L0%Nat.ltb_lt).
    destruct (Hshort 1%nat ltac:(lia)) as (r1 & t1 & H1 & L1%Nat.ltb_lt).
    rewrite (Hstep _ _ [] _ r0 t0 H0 L0).
    rewrite (Hstep _ _ ([] ++ [_]) _ r1 t1 H1 L1).
    by rewrite Hraise by exact Hexc.
Qed.

Lemma request_exception_ends_fetch_witness :
  fetch_raw_html self_signed_not_found (py "https://example.com/missing")
  = ({| success := false;
        status_code := if 0%nat is O then None else Some 200%Z;
        html := [];
        error := py "Unexpected error: AttributeError: " ++ missing_attribute |},
     replicate 1
       {| gr_url := py "https://example.com/missing"; gr_verify := true;
          gr_timeout := if is_replit_url (py "https://example.com/missing")
                        then 45%Z else 20%Z |}).
Proof.
  apply (request_exception_ends_fetch self_signed_not_found
           (py "https://example.com/missing") (py "https://example.com/missing")
           0); [reflexivity | lia | intros j Hj; lia | done].
Defined.

(** X11: the result of [fetch_raw_html] is of one of two kinds: a
    success, with an empty [error] and status 200, or a failure, with a
    message in [error] and an empty [html]. *)
Theorem fetch_result_success_or_error E url :
  let r := (fetch_raw_html E url).1 in
  if success r then error r = [] /\ status_code r = Some 200%Z
  else error r <> [] /\ html r = [].
Proof.
  unfold fetch_raw_html. destruct (checked_url E url) as [r|url'] eqn:Hc.
  - apply checked_url_error in Hc as (Hs & He & Hh). cbn [fst]. by rewrite Hs.
  - destruct (rounds E 3 url' _ empty_result None []) as [r log] eqn:Hr.
    by apply rounds_error in Hr.
Qed.

(** X12: an address that is not blank and in which the URL parser finds
    a scheme other than [http] and [https] is turned down with the scheme
    in the message, and nothing is sent. *)
Theorem other_scheme_sends_nothing E url c scheme :
  urlparse_scheme E url = Returns (c :: scheme) ->
  strip url <> [] ->
  c :: scheme <> py "http" -> c :: scheme <> py "https" ->
  fetch_raw_html E url
  = ({| success := false; status_code := None; html := [];
        error := py "Invalid scheme: " ++ (c :: scheme)
                 ++ py ". Only http and https are supported." |}, []).
Proof.
  intros Hscheme Hblank Hhttp Hhttps. unfold fetch_raw_html, checked_url.
  rewrite Hscheme, (bool_decide_eq_false_2 _ Hblank).
  by rewrite (bool_decide_eq_false_2 _ Hhttp), (bool_decide_eq_false_2 _ Hhttps).
Qed.

Lemma other_scheme_sends_nothing_witness :
  fetch_raw_html page_server (py "localhost:3000")
  = ({| success := false; status_code := None; html := [];
        error := py "Invalid scheme: " ++ py "localhost"
                 ++ py ". Only http and https are supported." |}, []).
Proof.
  apply (other_scheme_sends_nothing page_server (py "localhost:3000") 108
           (py "ocalhost")); [reflexivity | by vm_compute | by vm_compute | by vm_compute].
Defined.

(** X13: when the address passes the checks and each of the three
    verified requests is answered with status 200 and fewer than 50
    characters, the fetch fails with status 200 in the result, no page,
    and the message of an empty or slow response. *)
Theorem short_pages_fail_with_status_200 E url url' :
  checked_url E url = inr url' ->
  (forall k, exists reason text,
      http_get E k {| gr_url := url'; gr_verify := true;
                      gr_timeout := if is_replit_url url' then 45%Z else 20%Z |}
      = Response 200 reason text /\ (length text < 50)%nat) ->
  fetch_raw_html E url
  = ({| success := false; status_code := Some 200%Z; html := [];
        error := py "Empty or slow response from server" |},
     replicate 3 {| gr_url := url'; gr_verify := true;
                    gr_timeout := if is_replit_url url' then 45%Z else 20%Z |}).
Proof.
  intros Hc Hget. unfold fetch_raw_html. rewrite Hc.
  cbn [rounds length].
  destruct (Hget 0%nat) as (r0 & t0 & -> & H0%Nat.ltb_lt).
  change (200 =? 200)%Z with true. cbv iota. rewrite H0. cbn [app length].
  destruct (Hget 1%nat) as (r1 & t1 & -> & H1%Nat.ltb_lt).
  change (200 =? 200)%Z with true. cbv iota. rewrite H1. cbn [app length].
  destruct (Hget 2%nat) as (r2 & t2 & -> & H2%Nat.ltb_lt).
  change (200 =? 200)%Z with true. cbv iota. rewrite H2. reflexivity.
Qed.

Lemma short_pages_fail_with_status_200_witness :
  fetch_raw_html
    {| urlparse_scheme := std_parser;
       http_get := fun _ _ => Response 200 (py "OK") (py "<html></html>") |}
    (py "https://example.com")
  = ({| success := false; status_code := Some 200%Z; html := [];
        error := py "Empty or slow response from server" |},
     replicate 3 {| gr_url := py "https://example.com"; gr_verify := true;
                    gr_timeout := if is_replit_url (py "https://example.com")
                                  then 45%Z else 20%Z |}).
Proof.
  apply (short_pages_fail_with_status_200
           {| urlparse_scheme := std_parser;
              http_get := fun _ _ => Response 200 (py "OK") (py "<html></html>") |}
           (py "https://example.com") (py "https://example.com"));
    [reflexivity|].
  intros k. exists (py "OK"), (py "<html></html>"). split; [reflexivity|simpl; lia].
Defined.

End FetchInvariants.

(** ** [validate_json_response] and the statistics of the cache *)

Module ValidationProperties.

Lemma filter_missing_nil d (keys : list pystr) :
  filter (fun k => dict_has k d = false) keys = []
  <-> forallb (fun k => dict_has k d) keys = true.
Proof.
  induction keys as [|k keys IH]; [done|].
  rewrite filter_cons. cbn [forallb].
  destruct (decide (dict_has k d = false)) as [Hk|Hk].
  - rewrite Hk. split; done.
  - apply not_false_is_true in Hk. rewrite Hk. exact IH.
Qed.


(** X15: the text [json_dumps] writes for a dictionary of strict JSON
    values that holds every required key passes
    [validate_json_response], which gives the dictionary back. *)
Theorem validate_json_response_round_trip dm sl d keys :
  value_ok (PDict d) = true ->
  forallb (fun k => dict_has k d) (required keys) = true ->
  validate_json_response dm sl (json_dumps (PDict d)) keys = (true, PDict d).
Proof.
  intros Hok Hkeys. unfold validate_json_response.
  rewrite (json_loads_dumps (PDict d) Hok).
  destruct keys as [[|k ks]|]; [done| |done].
  cbn [required] in Hkeys. apply filter_missing_nil in Hkeys. by rewrite Hkeys.
Qed.

Lemma validate_json_response_round_trip_witness :
  validate_json_response no_message (fun _ => [])
    (json_dumps (PDict [(py "title", PStr (py "Home")); (py "score", PInt 7)]))
    (Some [py "score"; py "title"])
  = (true, PDict [(py "title", PStr (py "Home")); (py "score", PInt 7)]).
Proof.
  apply (validate_json_response_round_trip no_message (fun _ => [])
           [(py "title", PStr (py "Home")); (py "score", PInt 7)]
           (Some [py "score"; py "title"])); reflexivity.
Defined.

End ValidationProperties.

Module CacheStatsProperties.

Section Remote.
Variable remote : nat -> request -> completion.

(** What a call of [smart_ai] does to the number of cached answers and
    to the requests sent. *)
Lemma smart_ai_counts prompt model ck mr temp mt w :
  let w' := (smart_ai remote prompt model ck mr temp mt w).2 in
  (cached_prompts w' = cached_prompts w /\ (length (issued w) <= length (issued w'))%nat)
  \/ (cached_prompts w' = (cached_prompts w + 1)%Z
      /\ (length (issued w) < length (issued w'))%nat).
Proof.
  unfold smart_ai, cached_prompts.
  destruct (ai_cache w !! key_of ck prompt) as [v|] eqn:Hc; cbn [snd].
  - left. split; [done|lia].
  - rewrite attempts_first_content.
    destruct (first_content _ _ _ _) as [[i t]|]; cbn [snd ai_cache issued].
    + right. rewrite map_size_insert, Hc, length_app, length_replicate. lia.
    + left. rewrite length_app. split; [done|lia].
Qed.

End Remote.

(** X16: in every state the process reaches, the cache holds no more
    answers than requests were sent: [cached_prompts] of
    [get_cache_stats] is at most the number of calls of the endpoint. *)
Theorem cached_prompts_at_most_requests remote w :
  reachable remote w -> (cached_prompts w <= Z.of_nat (length (issued w)))%Z.
Proof.
  induction 1 as [|w prompt model ck mr temp mt _ IH|w _ IH].
  - done.
  - destruct (smart_ai_counts remote prompt model ck mr temp mt w) as [[H1 H2]|[H1 H2]];
      lia.
  - unfold cached_prompts, clear_cache. cbn [ai_cache issued].
    rewrite map_size_empty. lia.
Qed.

Lemma cached_prompts_at_most_requests_witness :
  (cached_prompts
     (smart_ai flaky (py "Describe the page") None None 3 (py "0.2") 2000 fresh).2
   <= Z.of_nat
        (length (issued
           (smart_ai flaky (py "Describe the page") None None 3 (py "0.2") 2000
              fresh).2)))%Z.
Proof.
  apply (cached_prompts_at_most_requests flaky).
  apply reach_smart_ai. apply reach_fresh.
Defined.

(** X17: after [clear_cache] no answer is cached, the requests sent are
    the same, and a call of [smart_ai] with a budget of one attempt or more
    sends a request, whatever was cached before. *)
Theorem clear_cache_forgets remote prompt model ck mr temp mt w :
  (0 < mr)%Z ->
  cached_prompts (clear_cache w) = 0%Z
  /\ issued (clear_cache w) = issued w
  /\ issued (smart_ai remote prompt model ck mr temp mt (clear_cache w)).2
       !! length (issued w)
     = Some (request_of prompt model temp mt).
Proof.
  intros Hmr. split; [done|]. split; [done|].
  rewrite AiProperties.smart_ai_miss by apply lookup_empty.
  rewrite attempts_first_content. cbn [clear_cache issued ai_cache].
  destruct (Z.to_nat mr) as [|n] eqn:Hn; [lia|].
  destruct (first_content _ _ _ _) as [[i t]|]; cbn [snd issued];
    rewrite lookup_app_r by done; by rewrite Nat.sub_diag.
Qed.

Lemma clear_cache_forgets_witness :
  cached_prompts
    (clear_cache
       (smart_ai (steady (py "an answer")) (py "Describe the page") None None 3
          (py "0.2") 2000 fresh).2) = 0%Z
  /\ issued
       (clear_cache
          (smart_ai (steady (py "an answer")) (py "Describe the page") None None 3
             (py "0.2") 2000 fresh).2)
     = issued
         (smart_ai (steady (py "an answer")) (py "Describe the page") None None 3
            (py "0.2") 2000 fresh).2
  /\ issued
       (smart_ai (steady (py "an answer")) (py "Describe the page") None None 3
          (py "0.2") 2000
          (clear_cache
             (smart_ai (steady (py "an answer")) (py "Describe the page") None None
                3 (py "0.2") 2000 fresh).2)).2
       !! length
            (issued
               (smart_ai (steady (py "an answer")) (py "Describe the page") None
                  None 3 (py "0.2") 2000 fresh).2)
     = Some (request_of (py "Describe the page") None (py "0.2") 2000).
Proof.
  apply (clear_cache_forgets (steady (py "an answer")) (py "Describe the page")
           None None 3 (py "0.2") 2000). lia.
Defined.

End CacheStatsProperties.

(** ** [improve_task_with_ai] *)

Module SplitFacts.
Import GeneratePrompts.

Lemma startswith_app_fits p a rest :
  (length p <= length a)%nat -> startswith p (a ++ rest) = startswith p a.
Proof.
  revert a. induction p as [|x p IH]; intros [|y a]; simpl; try done; try lia.
  intros H. by rewrite IH by lia.
Qed.

Lemma split_from_nonempty sep k s : split_from sep k s <> [].
Proof.
  revert k. induction s as [|c s IH]; intros k; [done|].
  destruct k as [|k]; cbn [split_from]; [|apply IH].
  destruct (startswith sep (c :: s)); [done|].
  by destruct (split_from sep 0 s).
Qed.

(** The characters of an occurrence in progress are dropped. *)
Lemma remove_from_skip old a rest :
  remove_from old (length a) (a ++ rest) = remove_from old 0 rest.
Proof.
  induction a as [|c a IH]; [done|]. exact IH.
Qed.

Lemma split_from_skip_eq sep a rest :
  split_from sep (length a) (a ++ rest) = split_from sep 0 rest.
Proof.
  induction a as [|c a IH]; [done|]. exact IH.
Qed.

(** A text without the separator is one part. *)
Lemma split_str_absent sep s :
  sep <> [] -> contains sep s = false -> split_str sep s = [s].
Proof.
  intros Hsep. unfold split_str. induction s as [|c s IH]; [done|].
  cbn [contains split_from]. intros [H1 H2]%orb_false_elim.
  by rewrite H1, (IH H2).
Qed.

(** The part in front of the first occurrence of the separator. *)
Lemma split_str_first sep x rest :
  sep <> [] ->
  (forall i, (i < length x)%nat -> startswith sep (drop i (x ++ sep ++ rest)) = false) ->
  split_str sep (x ++ sep ++ rest) = x :: split_str sep rest.
Proof.
  intros Hsep. unfold split_str. induction x as [|c x IH]; intros Hx.
  - destruct sep as [|a sep]; [done|]. cbn [app split_from].
    assert (startswith (a :: sep) (a :: sep ++ rest) = true) as ->
      by (apply startswith_spec; by exists rest).
    replace (length (a :: sep) - 1)%nat with (length sep) by (simpl; lia).
    by rewrite split_from_skip_eq.
  - cbn [app split_from].
    pose proof (Hx O ltac:(simpl; lia)) as H0. cbn [drop app] in H0.
    rewrite H0.
    rewrite IH; [done|]. intros i Hi. apply (Hx (S i)). simpl. lia.
Qed.

Lemma find_str_before p s n :
  find_str p s = Some n ->
  forall i, (i < n)%nat -> startswith p (drop i s) = false.
Proof.
  revert n. induction s as [|c s IH]; intros n; cbn [find_str].
  - destruct (startswith p []); [|done]. intros [= <-] i Hi. lia.
  - destruct (startswith p (c :: s)) eqn:Hs; [intros [= <-] i Hi; lia|].
    destruct (find_str p s) as [m|] eqn:Hf; [|done]. intros [= <-] [|i] Hi.
    + exact Hs.
    + apply (IH m eq_refl). lia.
Qed.

(** The separator found first at the end of [x] is found first there
    whatever follows. *)
Lemma first_occurrence_extends sep x rest :
  find_str sep (x ++ sep) = Some (length x) ->
  forall i, (i < length x)%nat -> startswith sep (drop i (x ++ sep ++ rest)) = false.
Proof.
  intros Hf i Hi. rewrite app_assoc, drop_app_le by (rewrite length_app; lia).
  rewrite startswith_app_fits by (rewrite length_drop, length_app; lia).
  by apply (find_str_before sep _ _ Hf).
Qed.

Lemma remove_all_leading old e :
  old <> [] -> contains old e = false -> remove_all old (old ++ e) = e.
Proof.
  intros Hold He. unfold remove_all. destruct old as [|a old]; [done|].
  cbn [app remove_from].
  assert (startswith (a :: old) (a :: old ++ e) = true) as ->
    by (apply startswith_spec; by exists e).
  replace (length (a :: old) - 1)%nat with (length old) by (simpl; lia).
  rewrite remove_from_skip. by apply RoundTrip.remove_all_absent.
Qed.

End SplitFacts.

Module PromptProperties.
Import GeneratePrompts SplitFacts.

Lemma improve_smart_ai remote issue base_task w :
  improve_task_with_ai remote issue base_task w
  = let '(response_text, w') :=
      smart_ai remote (improve_prompt issue base_task) (Some CHEAP_MODEL)
        (Some (improve_key issue)) 3 (py "0.2") 200 w in
    if contains (py "EXPLANATION:") response_text
       && contains (py "PROMPT:") response_text
    then
      let parts := split_str (py "PROMPT:") response_text in
      ({| explanation :=
            slice_to 200
              (strip (remove_all (py "EXPLANATION:")
                        (match parts with p0 :: _ => p0 | [] => [] end)));
          ai_prompt :=
            slice_to 300 (match parts with _ :: p1 :: _ => strip p1 | _ => [] end) |},
       w')
    else ({| explanation := base_task; ai_prompt := base_task |}, w').
Proof. reflexivity. Qed.



(** X19: when the answer of the endpoint, without its fence, is the word
    [EXPLANATION:], a text, the word [PROMPT:] and a second text, neither
    text holding its word again, [improve_task_with_ai] gives the first
    200 characters of the first text, stripped, and the first 300 of the
    second, stripped. *)
Theorem improve_task_parses_answer remote issue base_task w text e p :
  ai_cache w !! improve_key issue = None ->
  remote (length (issued w)) (improve_request issue base_task) = Content text ->
  strip_fence text = py "EXPLANATION:" ++ e ++ py "PROMPT:" ++ p ->
  contains (py "EXPLANATION:") e = false ->
  find_str (py "PROMPT:") ((py "EXPLANATION:" ++ e) ++ py "PROMPT:")
  = Some (length (py "EXPLANATION:" ++ e)) ->
  contains (py "PROMPT:") p = false ->
  improve_task_with_ai remote issue base_task w
  = ({| explanation := slice_to 200 (strip e);
        ai_prompt := slice_to 300 (strip p) |},
     {| ai_cache := <[improve_key issue := strip_fence text]> (ai_cache w);
        issued := issued w ++ [improve_request issue base_task] |}).
Proof.
  intros Hmiss Hr Htext He Hfirst Hp. rewrite improve_smart_ai.
  assert (0 < 3)%Z as H3 by lia.
  rewrite (AnswerProperties.smart_ai_first_answer remote
             (improve_prompt issue base_task) (Some CHEAP_MODEL)
             (Some (improve_key issue)) 3 (py "0.2") 200 w text Hmiss H3 Hr).
  change (key_of (Some (improve_key issue)) (improve_prompt issue base_task))
    with (improve_key issue).
  rewrite Htext.
  assert (contains (py "EXPLANATION:")
            (py "EXPLANATION:" ++ e ++ py "PROMPT:" ++ p) = true) as ->
    by (apply contains_spec; by exists [], (e ++ py "PROMPT:" ++ p)).
  assert (contains (py "PROMPT:")
            (py "EXPLANATION:" ++ e ++ py "PROMPT:" ++ p) = true) as ->
    by (apply contains_spec; exists (py "EXPLANATION:" ++ e), p;
        by rewrite <- app_assoc).
  cbn [andb].
  replace (py "EXPLANATION:" ++ e ++ py "PROMPT:" ++ p)
    with ((py "EXPLANATION:" ++ e) ++ py "PROMPT:" ++ p)
    by (by rewrite <- app_assoc).
  rewrite split_str_first;
    [|done|by apply first_occurrence_extends].
  rewrite (split_str_absent (py "PROMPT:") p) by done.
  cbv zeta. rewrite remove_all_leading by done. reflexivity.
Qed.

Lemma improve_task_parses_answer_witness :
  improve_task_with_ai
    (steady (py "EXPLANATION: Titles help search engines." ++ [newline]
             ++ py "PROMPT: Add a title tag."))
    (py "missing title") (py "Add a title tag to the page.") fresh
  = ({| explanation := slice_to 200 (strip (py " Titles help search engines." ++ [newline]));
        ai_prompt := slice_to 300 (strip (py " Add a title tag.")) |},
     {| ai_cache :=
          <[improve_key (py "missing title")
            := strip_fence (py "EXPLANATION: Titles help search engines." ++ [newline]
                            ++ py "PROMPT: Add a title tag.")]> (ai_cache fresh);
        issued := issued fresh
                  ++ [improve_request (py "missing title")
                        (py "Add a title tag to the page.")] |}).
Proof.
  apply (improve_task_parses_answer
           (steady (py "EXPLANATION: Titles help search engines." ++ [newline]
                    ++ py "PROMPT: Add a title tag."))
           (py "missing title") (py "Add a title tag to the page.") fresh
           (py "EXPLANATION: Titles help search engines." ++ [newline]
            ++ py "PROMPT: Add a title tag.")
           (py " Titles help search engines." ++ [newline])
           (py " Add a title tag.")); reflexivity.
Defined.

(** X20: the entries [improve_task_with_ai] gives are cut to 200 and to
    300 characters when they come from the answer; the task of the rules,
    given when the answer does not hold the two words, is not cut. *)
Theorem improve_task_lengths remote issue base_task w :
  let r := (improve_task_with_ai remote issue base_task w).1 in
  (length (explanation r) <= Nat.max 200 (length base_task))%nat
  /\ (length (ai_prompt r) <= Nat.max 300 (length base_task))%nat.
Proof.
  rewrite improve_smart_ai.
  destruct (smart_ai remote _ _ _ _ _ _ w) as [response_text w'].
  destruct (contains (py "EXPLANATION:") response_text
            && contains (py "PROMPT:") response_text); cbn [fst explanation ai_prompt].
  - split.
    + pose proof (ReducerProperties.slice_to_length
                    (strip (remove_all (py "EXPLANATION:")
                              match split_str (py "PROMPT:") response_text with
                              | [] => []
                              | p0 :: _ => p0
                              end)) 200 ltac:(lia)) as H.
      change (Z.to_nat 200) with 200%nat in H. lia.
    + pose proof (ReducerProperties.slice_to_length
                    (match split_str (py "PROMPT:") response_text with
                     | _ :: p1 :: _ => strip p1
                     | _ => []
                     end) 300 ltac:(lia)) as H.
      change (Z.to_nat 300) with 300%nat in H. lia.
  - lia.
Qed.

End PromptProperties.

(** ** [generate_tasks] and [discover_competitors_ai] *)

Module TaskProperties.
Import GeneratePrompts TaskManager.

Lemma improve_task_requests remote issue base_task w :
  (length (issued (improve_task_with_ai remote issue base_task w).2)
   <= length (issued w) + 3)%nat.
Proof.
  rewrite PromptProperties.improve_smart_ai.
  destruct (AnswerProperties.smart_ai_requests remote
              (improve_prompt issue base_task) (Some CHEAP_MODEL)
              (Some (improve_key issue)) 3 (py "0.2") 200 w)
    as (n & Hn & Hlog).
  destruct (smart_ai remote _ _ _ _ _ _ w) as [response_text w'].
  cbn [snd] in Hlog.
  assert (length (issued w') <= length (issued w) + 3)%nat as Hlen
    by (rewrite Hlog, length_app, length_replicate; lia).
  by destruct (_ && _).
Qed.

Lemma generate_tasks_cons remote i issues w :
  generate_tasks remote (i :: issues) w
  = let '(base_task, base_prompt) := rule_of i in
    let '(ai_enhanced, w1) := improve_task_with_ai remote i base_task w in
    let '(tasks, w2) := generate_tasks remote issues w1 in
    ({| issue := i; task := base_task; prompt := base_prompt;
        ai_explanation := explanation ai_enhanced;
        ai_prompt := GeneratePrompts.ai_prompt ai_enhanced;
        done := false |} :: tasks, w2).
Proof. reflexivity. Qed.

(** X21: [generate_tasks] gives one task for each issue, in the order of
    the issues, none of them done; the task and the prompt of each are
    those of the rules, whatever the endpoint answers; and three requests
    at most are sent for an issue. *)
Theorem generate_tasks_one_task_per_issue remote issues w :
  let '(tasks, w') := generate_tasks remote issues w in
  map TaskManager.issue tasks = issues
  /\ forallb (fun t => negb (done t)) tasks = true
  /\ Forall (fun t => (task t, prompt t) = rule_of (TaskManager.issue t)) tasks
  /\ (length (issued w') <= length (issued w) + 3 * length issues)%nat.
Proof.
  revert w. induction issues as [|i issues IH]; intros w.
  - repeat split; [done|simpl; lia].
  - rewrite generate_tasks_cons.
    destruct (rule_of i) as [base_task base_prompt] eqn:Hrule.
    pose proof (improve_task_requests remote i base_task w) as Hreq.
    destruct (improve_task_with_ai remote i base_task w) as [ai_enhanced w1].
    specialize (IH w1).
    destruct (generate_tasks remote issues w1) as [tasks w2].
    destruct IH as (Hmap & Hdone & Hrules & Hlen). cbn [snd] in Hreq.
    split; [cbn [map TaskManager.issue]; by rewrite Hmap|].
    split; [cbn [forallb done negb andb]; exact Hdone|].
    split; [constructor; [cbn [task prompt TaskManager.issue]; by rewrite Hrule|done]|].
    cbn [length]. lia.
Qed.

End TaskProperties.

Module CompetitorProperties.
Import CompetitorAi.












End CompetitorProperties.

(** ** [fetch_html_with_status] *)

Module BrowserProperties.
Import BrowserFetch.

Section Fetch.
Variable B : browser.

Lemma rounds_result n url timeout last_error log res log' :
  status_rounds B n url timeout last_error log = (res, log') ->
  match res with
  | Returns r =>
      if success r then error r = None /\ page_parsed B r log'
      else html r = [] /\ exists msg, error r = Some msg /\ msg <> []
  | Raises msg => msg = missing_attribute /\ escaped B log'
  end.
Proof.
  revert last_error log.
  induction n as [|n IH]; intros last_error log; cbn [status_rounds].
  - intros [= <- <-]. cbn [success html error]. split; [done|].
    eexists. split; [done|]. apply FetchInvariants.last_error_or_nonempty.
  - set (rq := {| gr_url := url; gr_verify := true; gr_timeout := timeout |}).
    assert ((log ++ [rq]) !! length log = Some rq) as Hlast
      by (rewrite lookup_app_r by done; by rewrite Nat.sub_diag).
    assert (length (log ++ [rq]) = S (length log)) as Hlen'
      by (rewrite length_app; simpl; lia).
    destruct (client_get B (length log) rq) as [status reason text|m|m|m] eqn:Hget.
    + destruct (raise_for_status B status) eqn:Hraise.
      * intros [= <- <-]. cbn [success html error]. split; [done|].
        eexists. split; [done|]. done.
      * destruct (length text <? 50)%nat eqn:Hlen; [apply IH|].
        apply Nat.ltb_ge in Hlen.
        destruct (prettify_without_scripts B text) as [pretty|msg] eqn:Hp.
        -- intros [= <- <-]. cbn [success error]. split; [done|].
           by exists (length log), rq, status, reason, text.
        -- intros [= <- <-]. split; [done|].
           exists (length log), rq. split; [done|]. split; [done|].
           rewrite Hget. split; [done|]. split; [done|]. by exists msg.
    + intros [= <- <-]. split; [done|].
      exists (length log), rq. split; [done|]. split; [done|]. by rewrite Hget.
    + apply IH.
    + intros [= <- <-]. split; [done|].
      exists (length log), rq. split; [done|]. split; [done|]. by rewrite Hget.
Qed.

(** The requests of the loop: one in a round, always the same, with
    certificates verified. *)
Lemma rounds_count n url timeout last_error log res log' :
  status_rounds B n url timeout last_error log = (res, log') ->
  exists k, ((if n is O then 0 else 1) <= k <= n)%nat
    /\ log' = log ++ replicate k {| gr_url := url; gr_verify := true;
                                    gr_timeout := timeout |}.
Proof.
  revert last_error log.
  induction n as [|n IH]; intros last_error log; cbn [status_rounds].
  - intros [= <- <-]. exists O. split; [lia|]. cbn [replicate]. by rewrite app_nil_r.
  - set (rq := {| gr_url := url; gr_verify := true; gr_timeout := timeout |}).
    assert (forall le, status_rounds B n url timeout le (log ++ [rq]) = (res, log') ->
              exists k, (1 <= k <= S n)%nat /\ log' = log ++ replicate k rq) as Hone.
    { intros le (k & Hk & ->)%IH. exists (S k). split; [lia|].
      by rewrite <- app_assoc. }
    assert (exists k, (1 <= k <= S n)%nat /\ log ++ [rq] = log ++ replicate k rq)
      as Hend by (exists 1%nat; split; [lia|done]).
    destruct (client_get B (length log) rq) as [status reason text|m|m|m];
      [|by intros [= <- <-]|apply Hone|by intros [= <- <-]].
    destruct (raise_for_status B status); [by intros [= <- <-]|].
    destruct (length text <? 50)%nat; [apply Hone|].
    destruct (prettify_without_scripts B text); by intros [= <- <-].
Qed.

End Fetch.

(** X24: [fetch_html_with_status] returns a dictionary of one of two
    kinds, or raises.  A success has no error; its [html] is what the
    parser wrote for a page of 50 characters or more received for one of
    the requests, and its status is the status of that response.  A
    failure has an empty [html] and a message in [error].  And when the
    last request raises an exception other than a timeout, or the parser
    raises on the page, the [AttributeError] of the name [httpx.SSLError]
    leaves the function. *)
Theorem fetch_html_with_status_result B url :
  let '(res, log) := fetch_html_with_status B url in
  match res with
  | Returns r =>
      if success r then error r = None /\ page_parsed B r log
      else html r = [] /\ exists msg, error r = Some msg /\ msg <> []
  | Raises msg => msg = missing_attribute /\ escaped B log
  end.
Proof.
  unfold fetch_html_with_status.
  destruct (status_rounds B 3 url _ None []) as [res log] eqn:Hr.
  by apply rounds_result in Hr.
Qed.

(** X25: when [raise_for_status] raises on the response to the first
    request, [fetch_html_with_status] ends there: the failure carries the
    status, and one request was sent. *)
Theorem http_status_error_is_final B url status reason text :
  client_get B 0
    {| gr_url := url; gr_verify := true;
       gr_timeout := if is_replit_url url then 45%Z else 20%Z |}
  = Response status reason text ->
  raise_for_status B status = true ->
  fetch_html_with_status B url
  = (Returns {| success := false; html := []; status_code := Some status;
                error := Some (py "HTTP error: " ++ int_str status) |},
     [{| gr_url := url; gr_verify := true;
         gr_timeout := if is_replit_url url then 45%Z else 20%Z |}]).
Proof.
  intros Hget Hraise. unfold fetch_html_with_status.
  cbn [status_rounds length]. by rewrite Hget, Hraise.
Qed.

Lemma http_status_error_is_final_witness :
  fetch_html_with_status not_found_browser (py "https://example.com/missing")
  = (Returns {| success := false; html := []; status_code := Some 404%Z;
                error := Some (py "HTTP error: " ++ int_str 404) |},
     [{| gr_url := py "https://example.com/missing"; gr_verify := true;
         gr_timeout := if is_replit_url (py "https://example.com/missing")
                       then 45%Z else 20%Z |}]).
Proof.
  apply (http_status_error_is_final not_found_browser
           (py "https://example.com/missing") 404 (py "Not Found") missing_page);
    reflexivity.
Defined.

(** X26: when the first request raises an exception other than a
    timeout (a connection or certificate error, any other),
    [fetch_html_with_status] does not return: the [AttributeError] of the
    name [httpx.SSLError] leaves it, after that one request; the request
    without verification is not sent. *)
Theorem request_error_leaves_as_attribute_error B url msg :
  let rq := {| gr_url := url; gr_verify := true;
               gr_timeout := if is_replit_url url then 45%Z else 20%Z |} in
  client_get B 0 rq = ConnectError msg \/ client_get B 0 rq = OtherError msg ->
  fetch_html_with_status B url = (Raises missing_attribute, [rq]).
Proof.
  intros rq Hget. unfold fetch_html_with_status.
  cbn [status_rounds length]. fold rq. by destruct Hget as [-> | ->].
Qed.

Lemma request_error_leaves_as_attribute_error_witness :
  fetch_html_with_status self_signed_browser (py "https://example.com/missing")
  = (Raises missing_attribute,
     [{| gr_url := py "https://example.com/missing"; gr_verify := true;
         gr_timeout := if is_replit_url (py "https://example.com/missing")
                       then 45%Z else 20%Z |}]).
Proof.
  apply (request_error_leaves_as_attribute_error self_signed_browser
           (py "https://example.com/missing") (py "certificate verify failed")).
  left. reflexivity.
Defined.

(** X27: [fetch_html_with_status] checks nothing of the address: for
    every text given as address, blank or with any scheme, it sends one
    request at least and three at most, all of them the same one, with
    certificates verified. *)
Theorem fetch_html_with_status_always_sends B url :
  exists k, (1 <= k <= 3)%nat
    /\ (fetch_html_with_status B url).2
       = replicate k {| gr_url := url; gr_verify := true;
                        gr_timeout := if is_replit_url url then 45%Z else 20%Z |}.
Proof.
  unfold fetch_html_with_status.
  destruct (status_rounds B 3 url _ None []) as [res log] eqn:Hr.
  apply rounds_count in Hr as (k & Hk & ->). by exists k.
Qed.

End BrowserProperties.

(** ** Addresses of Replit *)

Module ReplitProperties.

Lemma lower_app a b : lower (a ++ b) = lower a ++ lower b.
Proof. unfold lower. by rewrite map_app, concat_app. Qed.

(** X28: an address that holds one of the four words of Replit, in any
    case of its letters and at any place (host, path or query), is taken
    for an address of Replit. *)
Theorem replit_word_anywhere a m b word :
  word ∈ [py ".replit."; py "spock."; py ".repl.co"; py "replit.dev"] ->
  lower m = word ->
  is_replit_url (a ++ m ++ b) = true.
Proof.
  intros Hword Hm. unfold is_replit_url. apply existsb_exists.
  exists word. split; [by apply list_elem_of_In|].
  apply contains_spec. exists (lower a), (lower b).
  by rewrite !lower_app, Hm.
Qed.

Lemma replit_word_anywhere_witness :
  is_replit_url (py "https://example.com/?from=" ++ py "Replit.DEV" ++ py "&x=1")
  = true.
Proof.
  apply (replit_word_anywhere (py "https://example.com/?from=") (py "Replit.DEV")
           (py "&x=1") (py "replit.dev")); [|reflexivity].
  apply (bool_decide_unpack _). by vm_compute.
Defined.

End ReplitProperties.
